(** * Notification dispatch engine

    A shallow embedding of
    [enterprise-proposal-system/backend/src/services/notification.js]:
    the event classifier ([generateNotification]), the prioritizer
    ([AIPrioritizer.prioritize]), the rate limiter ([isRateLimited],
    [getMinInterval]), the dispatch queue with its batch timer
    ([publish], [scheduleBatchProcessing], [processBatch]) and the channel
    router ([groupBatchByChannel], [processChannelBatch]).

    Conventions of the embedding.
    - JavaScript values are the JSON-like ones of [JsValue]; numbers are the
      integer-valued ones, carried by [Z].
    - An object is a finite map from property names to values ([gmap]); the
      order of its properties is not observed by the engine.
    - A call that may raise returns a [Completion]; code that also mutates
      the service instance runs in the monad [M] over [ServiceState].
    - [Date.now()], [new Date().toISOString()] and [Math.random()] are read
      from an explicit [Env].
    - Built-ins of the runtime whose definition is not part of the module
      (the string of a primitive value, the numeric reading of a string
      operand of [>]) are the fields of a [Runtime]; the conversion of
      objects and arrays, which can raise, is [template].
    - The engine is single-threaded: the state changes of one [publish] call
      happen in one turn of the event loop, after its two [await]s, and are
      modelled as one step. A flush is modelled twice: run to its end as one
      step ([processBatch]), and turn by turn, suspended at each [await]
      while other turns run ([Loop]). *)

From Stdlib Require Import ZArith String List Lia Permutation Sorted.
From stdpp Require Import gmap strings list pretty.

Set Warnings "-register-all".
Open Scope string_scope.
Open Scope list_scope.
Open Scope Z_scope.

(** ** Values *)

Inductive JsValue : Type :=
| JUndefined
| JNull
| JBool (b : bool)
| JNum (z : Z)
| JStr (s : string)
| JArr (xs : list JsValue)
| JObj (fields : gmap string JsValue).

Inductive JsError : Type :=
| TypeError (msg : string)
| Error (msg : string).

(** Outcome of a call: a value, or a raised exception. *)
Inductive Completion (A : Type) : Type :=
| Normal (a : A)
| Throw (e : JsError).

Arguments Normal {A} a.
Arguments Throw {A} e.

Definition cbind {A B} (c : Completion A) (k : A -> Completion B) : Completion B :=
  match c with
  | Normal a => k a
  | Throw e => Throw e
  end.

Definition cmap {A B} (f : A -> B) (c : Completion A) : Completion B :=
  cbind c (fun a => Normal (f a)).

(** [ToBoolean]: the falsy values are [undefined], [null], [false], [0] and
    the empty string. *)
Definition ToBoolean (v : JsValue) : bool :=
  match v with
  | JUndefined | JNull => false
  | JBool b => b
  | JNum z => negb (z =? 0)
  | JStr s => negb (String.eqb s EmptyString)
  | JArr _ | JObj _ => true
  end.

(** [a || b] *)
Definition js_or (a b : JsValue) : JsValue :=
  if ToBoolean a then a else b.

Definition nullish (v : JsValue) : bool :=
  match v with
  | JUndefined | JNull => true
  | _ => false
  end.

(** [o[k]] on an object: the property, or [undefined]. *)
Definition field (o : gmap string JsValue) (k : string) : JsValue :=
  default JUndefined (o !! k).

(** [v.k] for a value [v] that is neither [null] nor [undefined]. The names
    the module reads this way ([title], [createdBy], [full_name],
    [clientName], [estimatedValue], [userId], ...) are not built-in
    properties of strings, arrays, numbers or booleans, so only an object
    can answer something else than [undefined]. *)
Definition get_prop (v : JsValue) (k : string) : JsValue :=
  match v with
  | JObj o => field o k
  | _ => JUndefined
  end.

(** [v?.k] *)
Definition opt_prop (v : JsValue) (k : string) : JsValue :=
  if nullish v then JUndefined else get_prop v k.

(** [v.k] for several [k]: reading a property of [null] or [undefined]
    raises a [TypeError]; otherwise every later [v.k] is [get_prop v k]. *)
Definition deref (v : JsValue) : Completion (string -> JsValue) :=
  if nullish v
  then Throw (TypeError "Cannot read properties of undefined")
  else Normal (get_prop v).

(** The double quote character, as a string. *)
Definition dq : string := String (Ascii.ascii_of_nat 34) EmptyString.

(** [===] against a string literal. *)
Definition strict_eq_str (v : JsValue) (s : string) : bool :=
  match v with
  | JStr s' => String.eqb s' s
  | _ => false
  end.

Fixpoint index_props_from (i : nat) (xs : list JsValue) : gmap string JsValue :=
  match xs with
  | [] => ∅
  | x :: xs' => <[pretty i := x]> (index_props_from (S i) xs')
  end.

Fixpoint chars (s : string) : list JsValue :=
  match s with
  | EmptyString => []
  | String c s' => JStr (String c EmptyString) :: chars s'
  end.

(** The own enumerable properties copied by an object spread [{...v}]:
    those of an object, the indexed elements of an array or string, and
    nothing for the other values. *)
Definition own_props (v : JsValue) : gmap string JsValue :=
  match v with
  | JObj o => o
  | JArr xs => index_props_from 0 xs
  | JStr s => index_props_from 0 (chars s)
  | _ => ∅
  end.

(** [s.includes(sub)] on strings. *)
Fixpoint str_includes (sub s : string) : bool :=
  if String.prefix sub s then true
  else match s with
       | EmptyString => false
       | String _ s' => str_includes sub s'
       end.

(** [v.includes(arg)] for [v] neither [null] nor [undefined] and a string
    [arg]: substring test on a string, membership on an array
    (an element is the same value as [arg] only if it is that string);
    the other values have no callable [includes], and the call raises. *)
Definition call_includes (v : JsValue) (arg : string) : Completion JsValue :=
  match v with
  | JStr s => Normal (JBool (str_includes arg s))
  | JArr xs => Normal (JBool (existsb (fun x => strict_eq_str x arg) xs))
  | _ => Throw (TypeError "includes is not a function")
  end.

(** Built-ins of the runtime that the module uses without defining them:
    the conversions of primitive values. *)
Record Runtime : Type := {
  (** the string a primitive value ([undefined], [null], a boolean, a number
      or a string) converts to *)
  ToString : JsValue -> string;
  (** [s > k] for a string [s] and a number [k] (the string is read as a
      number first; a string that is not numeric compares false) *)
  string_gt : string -> Z -> bool
}.

#[global] Instance Completion_ret : MRet Completion := @Normal.
#[global] Instance Completion_bind : MBind Completion := fun A B k c => cbind c k.

(** [`${v}`]: the conversion of any value to a string, as a template literal
    and the operator [>] apply it. A primitive is converted by the runtime.
    An object is converted by its [toString] method: [Object.prototype.toString]
    answers ["[object Object]"], unless the object has a [toString] property of
    its own; in a JSON-like value that property is not a function, no other
    method yields a primitive, and the conversion raises a [TypeError]. An
    array is converted by [Array.prototype.toString], which joins the
    conversions of its elements with commas, [null] and [undefined] counting
    as the empty string, and raises when the conversion of an element does. *)
Fixpoint template (rt : Runtime) (v : JsValue) : Completion string :=
  match v with
  | JObj o =>
      match o !! "toString" with
      | Some _ => Throw (TypeError "Cannot convert object to primitive value")
      | None => Normal "[object Object]"
      end
  | JArr xs =>
      (fix join (l : list JsValue) : Completion string :=
         match l with
         | [] => Normal EmptyString
         | x :: l' =>
             cbind (if nullish x then Normal EmptyString else template rt x) (fun s =>
             cbind (join l') (fun rest =>
               Normal (match l' with [] => s | _ :: _ => s +:+ "," +:+ rest end)))
         end) xs
  | _ => Normal (ToString rt v)
  end.

(** The values a template literal can interpolate. *)
Definition converts (rt : Runtime) (v : JsValue) : Prop :=
  exists s, template rt v = Normal s.

(** [v > k] for a number literal [k]. [undefined] converts to NaN, [null]
    to 0, a boolean to 0 or 1; an array or an object is first converted to a
    string as by [template], which may raise, and ["[object Object]"] reads
    as NaN. *)
Definition js_gt (rt : Runtime) (v : JsValue) (k : Z) : Completion bool :=
  match v with
  | JUndefined => Normal false
  | JNull => Normal (k <? 0)
  | JBool b => Normal (k <? (if b then 1 else 0))
  | JNum z => Normal (k <? z)
  | JStr s => Normal (string_gt rt s k)
  | JArr _ => cmap (fun s => string_gt rt s k) (template rt v)
  | JObj _ => cmap (fun _ => false) (template rt v)
  end.

(** ** Constants of the module *)

Module NotificationChannels.
Definition IN_APP := "in_app".
Definition EMAIL := "email".
Definition SLACK := "slack".
Definition TEAMS := "teams".
End NotificationChannels.

Module NotificationTypes.
Definition PROPOSAL_CREATED := "proposal_created".
Definition PROPOSAL_UPDATED := "proposal_updated".
Definition PROPOSAL_APPROVED := "proposal_approved".
Definition PROPOSAL_SUBMITTED := "proposal_submitted".
Definition PROPOSAL_WON := "proposal_won".
Definition PROPOSAL_LOST := "proposal_lost".
Definition TASK_ASSIGNED := "task_assigned".
Definition TASK_COMPLETED := "task_completed".
Definition TASK_OVERDUE := "task_overdue".
Definition DEADLINE_ALERT := "deadline_alert".
Definition COMPLIANCE_LOW := "compliance_low".
Definition RFP_PARSED := "rfp_parsed".
Definition AI_DRAFT_GENERATED := "ai_draft_generated".
Definition AI_COMPLIANCE_CHECKED := "ai_compliance_checked".
Definition WEEKLY_REPORT_GENERATED := "weekly_report_generated".
Definition DOCUMENT_UPLOADED := "document_uploaded".
Definition APPROVAL_REQUIRED := "approval_required".
Definition ESCALATION := "escalation".
End NotificationTypes.

Module NotificationPriorities.
Definition LOW : Z := 1.
Definition MEDIUM : Z := 2.
Definition HIGH : Z := 3.
Definition URGENT : Z := 4.
Definition CRITICAL : Z := 5.
End NotificationPriorities.

Import NotificationChannels NotificationTypes NotificationPriorities.

(** ** Notifications *)

(** The object built by [generateNotification]. [userId] is read by the
    rate limiter but never written by the module: it is [undefined] on
    every notification the classifier builds. *)
Record Notification : Type := mkNotification {
  id : string;
  type : JsValue;
  timestamp : string;
  data : gmap string JsValue;
  title : string;
  message : string;
  priority : Z;
  channels : list string;
  metadata : JsValue;
  userId : JsValue
}.

(** What a call reads from the clock and the random generator. *)
Record Env : Type := {
  isoNow : string;      (* new Date().toISOString() *)
  dateNow : Z;          (* Date.now() *)
  randomSuffix : string (* Math.random().toString(36).substr(2, 9) *)
}.

(** The object literal of [metadata] in the recognized cases. *)
Definition obj (kvs : list (string * JsValue)) : JsValue :=
  JObj (list_to_map kvs).

Section Classifier.
Context (rt : Runtime).

Definition baseNotification (env : Env) (eventType data : JsValue)
    (title message : string) (priority : Z) (channels : list string)
    (metadata : JsValue) : Notification :=
  {| id := "NOTIF_" +:+ ToString rt (JNum (dateNow env)) +:+ "_" +:+ randomSuffix env;
     type := eventType;
     timestamp := isoNow env;
     data := <["generatedAt" := JStr (isoNow env)]> (own_props data);
     title := title;
     message := message;
     priority := priority;
     channels := channels;
     metadata := metadata;
     userId := JUndefined |}.

(** [`${v}`] *)
Definition interp (v : JsValue) : Completion string := template rt v.

(** [generateNotification(eventType, data)]. The [switch] compares with
    [===], so only a string selects a recognized case. The template
    literals of a case are evaluated in the order of the source: those of
    the title, then those of the message. *)
Definition generateNotification (env : Env) (eventType data : JsValue)
    : Completion Notification :=
  let base := baseNotification env eventType data in
  if strict_eq_str eventType PROPOSAL_CREATED then
    d ← deref data;
    heading ← interp (d "title");
    quoted ← interp (d "title");
    actor ← interp (js_or (opt_prop (d "createdBy") "full_name") (JStr "Unknown"));
    Normal (base
      ("Proposal Created: " +:+ heading)
      ("New proposal " +:+ dq +:+ quoted +:+ dq +:+ " created by " +:+ actor)
      MEDIUM [IN_APP; EMAIL]
      (obj [("proposalId", d "proposalId"); ("category", d "category");
            ("clientName", d "clientName"); ("estimatedValue", d "estimatedValue")]))
  else if strict_eq_str eventType PROPOSAL_APPROVED then
    d ← deref data;
    heading ← interp (d "title");
    quoted ← interp (d "title");
    actor ← interp (js_or (opt_prop (d "approvedBy") "full_name") (JStr "Unknown"));
    Normal (base
      ("Proposal Approved: " +:+ heading)
      ("Proposal " +:+ dq +:+ quoted +:+ dq +:+ " has been approved by " +:+ actor)
      HIGH [IN_APP; EMAIL; SLACK]
      (obj [("proposalId", d "proposalId"); ("approvedBy", d "approvedBy");
            ("approvedAt", d "approvedAt")]))
  else if strict_eq_str eventType PROPOSAL_SUBMITTED then
    d ← deref data;
    heading ← interp (d "title");
    quoted ← interp (d "title");
    Normal (base
      ("Proposal Submitted: " +:+ heading)
      ("Proposal " +:+ dq +:+ quoted +:+ dq +:+ " has been submitted to client")
      HIGH [IN_APP; EMAIL; TEAMS]
      (obj [("proposalId", d "proposalId"); ("submittedAt", d "submittedAt")]))
  else if strict_eq_str eventType TASK_ASSIGNED then
    d ← deref data;
    heading ← interp (d "title");
    quoted ← interp (d "title");
    actor ← interp (js_or (opt_prop (d "assignedTo") "full_name") (JStr "Unknown"));
    Normal (base
      ("Task Assigned: " +:+ heading)
      ("Task " +:+ dq +:+ quoted +:+ dq +:+ " assigned to " +:+ actor)
      MEDIUM [IN_APP; EMAIL]
      (obj [("taskId", d "taskId"); ("assignedTo", d "assignedTo");
            ("dueDate", d "dueDate"); ("priority", d "priority")]))
  else if strict_eq_str eventType DEADLINE_ALERT then
    d ← deref data;
    heading ← interp (d "taskTitle");
    quoted ← interp (d "taskTitle");
    Normal (base
      ("Deadline Alert: " +:+ heading)
      ("Task " +:+ dq +:+ quoted +:+ dq +:+ " is due soon or overdue!")
      URGENT [IN_APP; EMAIL; SLACK]
      (obj [("taskId", d "taskId"); ("dueDate", d "dueDate");
            ("overdue", d "overdue")]))
  else if strict_eq_str eventType COMPLIANCE_LOW then
    d ← deref data;
    heading ← interp (d "proposalTitle");
    quoted ← interp (d "proposalTitle");
    score ← interp (d "score");
    Normal (base
      ("Low Compliance Score: " +:+ heading)
      ("Proposal " +:+ dq +:+ quoted +:+ dq +:+ " has low compliance score: "
         +:+ score +:+ "/100")
      HIGH [IN_APP; EMAIL]
      (obj [("proposalId", d "proposalId"); ("score", d "score");
            ("issues", d "issues")]))
  else if strict_eq_str eventType AI_DRAFT_GENERATED then
    d ← deref data;
    heading ← interp (d "proposalTitle");
    quoted ← interp (d "proposalTitle");
    Normal (base
      ("AI Draft Generated: " +:+ heading)
      ("AI draft generated for proposal " +:+ dq +:+ quoted +:+ dq)
      MEDIUM [IN_APP; EMAIL]
      (obj [("proposalId", d "proposalId"); ("aiModel", d "aiModel");
            ("confidence", d "confidence")]))
  else if strict_eq_str eventType ESCALATION then
    d ← deref data;
    heading ← interp (d "title");
    described ← interp (d "description");
    Normal (base
      ("Escalation Required: " +:+ heading)
      ("Escalation required for: " +:+ described)
      CRITICAL [IN_APP; EMAIL; SLACK; TEAMS]
      (obj [("escalationType", d "escalationType"); ("reason", d "reason");
            ("escalatedTo", d "escalatedTo")]))
  else
    heading ← interp eventType;
    occurred ← interp eventType;
    Normal (base
      ("Notification: " +:+ heading)
      ("Event occurred: " +:+ occurred)
      LOW [IN_APP]
      data).

End Classifier.

(** The event types that have a case of their own in the [switch]. *)
Definition recognized (eventType : JsValue) : bool :=
  existsb (strict_eq_str eventType)
    [PROPOSAL_CREATED; PROPOSAL_APPROVED; PROPOSAL_SUBMITTED; TASK_ASSIGNED;
     DEADLINE_ALERT; COMPLIANCE_LOW; AI_DRAFT_GENERATED; ESCALATION].


(** ** Prioritizer ([AIPrioritizer]) *)

(** One entry of [this.rules]. What [condition] returns is tested for
    truthiness by the loop of [prioritize]; evaluating it may raise. *)
Record Rule : Type := {
  condition : Notification -> Completion JsValue;
  adjustment : Z;
  reason : string
}.

(** The notification after [rule] has been applied to a copy of it. *)
Definition adjust (rule : Rule) (notification : Notification) : Notification :=
  {| id := id notification;
     type := type notification;
     timestamp := timestamp notification;
     data := data notification;
     title := title notification;
     message := message notification;
     priority := Z.min (priority notification + adjustment rule) CRITICAL;
     channels := channels notification;
     metadata :=
       JObj (<["originalPriority" := JNum (priority notification)]>
            (<["prioritizationReason" := JStr (reason rule)]>
             (own_props (metadata notification))));
     userId := userId notification |}.

(** The loop of [prioritize] over a rule list: the first rule whose
    condition is truthy is applied and the loop is left ([break]). *)
Fixpoint prioritize_with (rules : list Rule) (notification : Notification)
    : Completion Notification :=
  match rules with
  | [] => Normal notification
  | rule :: rules' =>
      cbind (condition rule notification) (fun c =>
        if ToBoolean c
        then Normal (adjust rule notification)
        else prioritize_with rules' notification)
  end.

(** The rule the loop selects, if any. *)
Fixpoint matching_rule (rules : list Rule) (notification : Notification)
    : Completion (option Rule) :=
  match rules with
  | [] => Normal None
  | rule :: rules' =>
      cbind (condition rule notification) (fun c =>
        if ToBoolean c then Normal (Some rule)
        else matching_rule rules' notification)
  end.


Definition fails (rule : Rule) (n : Notification) : Prop :=
  exists c, condition rule n = Normal c /\ ToBoolean c = false.

Section Prioritizer.
Context (rt : Runtime).

Definition critical_rule : Rule :=
  {| condition := fun notification =>
       Normal (JBool (priority notification =? CRITICAL));
     adjustment := 2;
     reason := "Critical priority escalation" |}.

Definition escalation_rule : Rule :=
  {| condition := fun notification =>
       Normal (JBool (strict_eq_str (type notification) ESCALATION));
     adjustment := 2;
     reason := "Escalation event" |}.

Definition deadline_rule : Rule :=
  {| condition := fun notification =>
       Normal (JBool (strict_eq_str (type notification) DEADLINE_ALERT));
     adjustment := 1;
     reason := "Deadline alert" |}.

Definition compliance_rule : Rule :=
  {| condition := fun notification =>
       Normal (JBool (strict_eq_str (type notification) COMPLIANCE_LOW));
     adjustment := 1;
     reason := "Low compliance score" |}.

(** [notification.data?.estimatedValue > 1000000] *)
Definition high_value_rule : Rule :=
  {| condition := fun notification =>
       cmap JBool (js_gt rt (field (data notification) "estimatedValue") 1000000);
     adjustment := 1;
     reason := "High value proposal" |}.

(** [notification.metadata?.clientName?.includes('Strategic')] *)
Definition strategic_rule : Rule :=
  {| condition := fun notification =>
       let clientName := opt_prop (metadata notification) "clientName" in
       if nullish clientName then Normal JUndefined
       else call_includes clientName "Strategic";
     adjustment := 1;
     reason := "Strategic client" |}.

Definition rules : list Rule :=
  [critical_rule; escalation_rule; deadline_rule; compliance_rule;
   high_value_rule; strategic_rule].

Definition prioritize (notification : Notification) : Completion Notification :=
  prioritize_with rules notification.

End Prioritizer.

(** The prioritizer of the module raises [e] on a notification: no rule
    before the fifth holds, and either evaluating the predicate of the fifth
    (the comparison of [estimatedValue]) raises [e], or it does not hold and
    evaluating that of the sixth ([clientName.includes]) raises [e]. *)
Definition raises_in_rules (rt : Runtime) (n : Notification) (e : JsError) : Prop :=
  Forall (fun rule => fails rule n)
    [critical_rule; escalation_rule; deadline_rule; compliance_rule] /\
  (condition (high_value_rule rt) n = Throw e \/
   (fails (high_value_rule rt) n /\ condition strategic_rule n = Throw e)).

(** ** Rate limiter *)

(** [SameValueZero], the key comparison of [Map], on primitive values. An
    array or an object is the same value only as itself (the same
    reference), and the embedding has no references: it answers [false] for
    them, which is right for two values built apart and wrong for one value
    used twice. What is stated about looking a key up is therefore stated
    for the keys that are [findable], the primitives. *)
Definition same_value_zero (a b : JsValue) : bool :=
  match a, b with
  | JUndefined, JUndefined => true
  | JNull, JNull => true
  | JBool x, JBool y => Bool.eqb x y
  | JNum x, JNum y => x =? y
  | JStr x, JStr y => String.eqb x y
  | _, _ => false
  end.

(** A value that [Map] finds again when it is used as a key: the embedding's
    primitives. *)
Definition findable (k : JsValue) : Prop := same_value_zero k k = true.

(** A [Map] with arbitrary values as keys, in insertion order. *)
Definition JsMap (V : Type) : Type := list (JsValue * V).

Fixpoint map_get {V} (m : JsMap V) (k : JsValue) : option V :=
  match m with
  | [] => None
  | (k', v) :: m' => if same_value_zero k' k then Some v else map_get m' k
  end.

Fixpoint map_set {V} (m : JsMap V) (k : JsValue) (v : V) : JsMap V :=
  match m with
  | [] => [(k, v)]
  | (k', v') :: m' =>
      if same_value_zero k' k then (k', v) :: m' else (k', v') :: map_set m' k v
  end.

(** An entry of [this.rateLimiters]. *)
Record RateLimit : Type := {
  lastNotification : Z;
  count : Z
}.

(** [getMinInterval(priority)], in milliseconds. A priority that is not a
    key of the table gets the interval of [LOW]. *)
Definition getMinInterval (priority : Z) : Z :=
  if priority =? LOW then 60000
  else if priority =? MEDIUM then 30000
  else if priority =? HIGH then 15000
  else if priority =? URGENT then 5000
  else if priority =? CRITICAL then 1000
  else 60000.

(** [notification.userId || notification.data?.userId] *)
Definition recipient (notification : Notification) : JsValue :=
  js_or (userId notification) (field (data notification) "userId").

(** [isRateLimited(notification)] at [Date.now() = now], on the table
    [this.rateLimiters]: the answer and the table afterwards. *)
Definition isRateLimited (now : Z) (notification : Notification)
    (rateLimiters : JsMap RateLimit) : bool * JsMap RateLimit :=
  let userId := recipient notification in
  if negb (ToBoolean userId) then (false, rateLimiters)
  else
    let userLimit := map_get rateLimiters userId in
    let limited :=
      match userLimit with
      | Some l => now - lastNotification l <? getMinInterval (priority notification)
      | None => false
      end in
    if limited then (true, rateLimiters)
    else
      (false,
       map_set rateLimiters userId
         {| lastNotification := now;
            count := match userLimit with Some l => count l | None => 0 end + 1 |}).

(** ** Channel router: grouping and ordering *)

(** The [Map] built by [groupBatchByChannel], in insertion order. *)
Definition Grouped : Type := list (string * list Notification).

Fixpoint group_get (grouped : Grouped) (channel : string) : option (list Notification) :=
  match grouped with
  | [] => None
  | (c, ns) :: grouped' =>
      if String.eqb c channel then Some ns else group_get grouped' channel
  end.

(** [if (!grouped.has(channel)) grouped.set(channel, []);
     grouped.get(channel).push(notification)] *)
Fixpoint group_push (grouped : Grouped) (channel : string) (notification : Notification)
    : Grouped :=
  match grouped with
  | [] => [(channel, [notification])]
  | (c, ns) :: grouped' =>
      if String.eqb c channel then (c, ns ++ [notification]) :: grouped'
      else (c, ns) :: group_push grouped' channel notification
  end.

Definition groupBatchByChannel (batch : list Notification) : Grouped :=
  fold_left
    (fun grouped notification =>
       fold_left
         (fun grouped channel => group_push grouped channel notification)
         (channels notification) grouped)
    batch [].

(** [notifications.sort((a, b) => b.priority - a.priority)].
    [Array.prototype.sort] is stable; with this comparator it yields the one
    arrangement that is descending in priority and keeps elements of equal
    priority in their order, which is what inserting from the right
    builds. *)
Fixpoint insert_by_priority (x : Notification) (l : list Notification)
    : list Notification :=
  match l with
  | [] => [x]
  | y :: l' =>
      if priority x <? priority y then y :: insert_by_priority x l'
      else x :: y :: l'
  end.

Definition sort_by_priority (notifications : list Notification) : list Notification :=
  fold_right insert_by_priority [] notifications.

(** The notifications of a batch that target [channel], in batch order, one
    copy for each time the channel is listed. *)
Definition sub_batch (channel : string) (batch : list Notification) : list Notification :=
  flat_map
    (fun n => map (fun _ => n) (filter (fun c => String.eqb c channel = true) (channels n)))
    batch.

(** ** The service instance *)

Inductive Level : Type := info | warn | error.

(** A channel sender, seen from the engine: [sendBatch(notifications)]
    returns or raises. *)
Definition Sender : Type := list Notification -> Completion unit.

(** The fields of a [NotificationService] that the engine reads and writes,
    followed by what it does to its surroundings: the timeouts it has
    registered and that are still pending (by due time), the
    ['notification'] events emitted, the [sendBatch] calls made and the
    lines logged. *)
Record ServiceState : Type := mkState {
  notificationQueue : list Notification;
  batchTimer : option Z;
  rateLimiters : JsMap RateLimit;
  registered : gmap string Sender;   (* this.channels *)
  timeouts : list Z;
  emitted : list Notification;
  sent : list (string * list Notification);
  logged : list (Level * string)
}.

Definition batchSize : nat := 10.
Definition batchTimeout : Z := 5000.

(** A [sendBatch] that returns normally. None of the four senders of the
    module lets an exception escape. *)
Definition quiet_sender : Sender := fun _ => Normal tt.

(** The state after the constructor: [initializeChannels] has registered the
    four senders of the module. *)
Definition initial : ServiceState :=
  {| notificationQueue := [];
     batchTimer := None;
     rateLimiters := [];
     registered :=
       <[IN_APP := quiet_sender]> (<[EMAIL := quiet_sender]>
       (<[SLACK := quiet_sender]> (<[TEAMS := quiet_sender]> ∅)));
     timeouts := [];
     emitted := [];
     sent := [];
     logged := [] |}.

(** State and exceptions. A raised exception keeps the state changes made
    before it. *)
Definition M (A : Type) : Type := ServiceState -> Completion A * ServiceState.

Definition ret {A} (a : A) : M A := fun s => (Normal a, s).

Definition bind {A B} (m : M A) (k : A -> M B) : M B :=
  fun s =>
    match m s with
    | (Normal a, s') => k a s'
    | (Throw e, s') => (Throw e, s')
    end.

Definition lift {A} (c : Completion A) : M A := fun s => (c, s).

Definition try_catch {A} (body : M A) (handler : JsError -> M A) : M A :=
  fun s =>
    match body s with
    | (Normal a, s') => (Normal a, s')
    | (Throw e, s') => handler e s'
    end.

Definition gets {A} (f : ServiceState -> A) : M A := fun s => (Normal (f s), s).

Definition modify (f : ServiceState -> ServiceState) : M unit :=
  fun s => (Normal tt, f s).

#[global] Instance M_ret : MRet M := @ret.
#[global] Instance M_bind : MBind M := fun A B k m => bind m k.

Definition set_queue (q : list Notification) (s : ServiceState) : ServiceState :=
  mkState q (batchTimer s) (rateLimiters s) (registered s) (timeouts s)
          (emitted s) (sent s) (logged s).

Definition set_batchTimer (t : option Z) (s : ServiceState) : ServiceState :=
  mkState (notificationQueue s) t (rateLimiters s) (registered s) (timeouts s)
          (emitted s) (sent s) (logged s).

Definition set_rateLimiters (r : JsMap RateLimit) (s : ServiceState) : ServiceState :=
  mkState (notificationQueue s) (batchTimer s) r (registered s) (timeouts s)
          (emitted s) (sent s) (logged s).

Definition set_timeouts (t : list Z) (s : ServiceState) : ServiceState :=
  mkState (notificationQueue s) (batchTimer s) (rateLimiters s) (registered s) t
          (emitted s) (sent s) (logged s).

Definition add_emitted (n : Notification) (s : ServiceState) : ServiceState :=
  mkState (notificationQueue s) (batchTimer s) (rateLimiters s) (registered s)
          (timeouts s) (emitted s ++ [n]) (sent s) (logged s).

Definition add_sent (c : string) (ns : list Notification) (s : ServiceState)
    : ServiceState :=
  mkState (notificationQueue s) (batchTimer s) (rateLimiters s) (registered s)
          (timeouts s) (emitted s) (sent s ++ [(c, ns)]) (logged s).

Definition add_logged (l : Level) (msg : string) (s : ServiceState) : ServiceState :=
  mkState (notificationQueue s) (batchTimer s) (rateLimiters s) (registered s)
          (timeouts s) (emitted s) (sent s) (logged s ++ [(l, msg)]).

Definition logger (l : Level) (msg : string) : M unit := modify (add_logged l msg).

(** The pending timeouts once the one due at [due] has fired. *)
Fixpoint remove_first (due : Z) (pending : list Z) : list Z :=
  match pending with
  | [] => []
  | t :: pending' => if t =? due then pending' else t :: remove_first due pending'
  end.

Fixpoint for_each {A} (l : list A) (body : A -> M unit) : M unit :=
  match l with
  | [] => ret tt
  | x :: l' => body x ;; for_each l' body
  end.

Section Service.
Context (rt : Runtime).

(** [scheduleBatchProcessing()] called at time [now]: registers a timeout
    due at [now + batchTimeout] and keeps its handle in [batchTimer]. *)
Definition scheduleBatchProcessing (now : Z) : M unit :=
  modify (fun s =>
    set_batchTimer (Some (now + batchTimeout))
      (set_timeouts (timeouts s ++ [now + batchTimeout]) s)).

(** [this.isRateLimited(notification)] on the instance. *)
Definition rateLimited (now : Z) (notification : Notification) : M bool :=
  fun s =>
    let '(limited, r) := isRateLimited now notification (rateLimiters s) in
    (Normal limited, set_rateLimiters r s).

(** [publish(eventType, data)]; [now] is [Date.now()] as read by the rate
    limiter and the time at which the timeout is registered. The first
    statement of the [try] and the one of the [catch] each interpolate
    [eventType] into a log line; what the [catch] raises is raised to the
    caller. *)
Definition publish (env : Env) (now : Z) (eventType data : JsValue) : M unit :=
  try_catch
    (shown ← lift (template rt eventType);
     logger info ("Publishing event: " +:+ shown) ;;
     notification ← lift (generateNotification rt env eventType data);
     prioritizedNotification ← lift (prioritize rt notification);
     limited ← rateLimited now prioritizedNotification;
     if (limited : bool) then
       user ← lift (template rt (userId prioritizedNotification));
       logger warn ("Rate limited notification for user: " +:+ user)
     else
       modify (fun s => set_queue (notificationQueue s ++ [prioritizedNotification]) s) ;;
       timer ← gets batchTimer;
       (if timer is None then scheduleBatchProcessing now else ret tt) ;;
       modify (add_emitted prioritizedNotification))
    (fun _ =>
       shown ← lift (template rt eventType);
       logger error ("Failed to publish event " +:+ shown +:+ ":")).

(** [channelInstance.sendBatch(notifications)] *)
Definition sendBatch (channel : string) (channelInstance : Sender)
    (notifications : list Notification) : M unit :=
  fun s => (channelInstance notifications, add_sent channel notifications s).

Definition processChannelBatch (channel : string)
    (notifications : list Notification) : M unit :=
  channelInstance ← gets (fun s => registered s !! channel);
  match channelInstance with
  | None => logger warn ("Channel " +:+ channel +:+ " not found")
  | Some channelInstance =>
      try_catch
        (let notifications := sort_by_priority notifications in
         sendBatch channel channelInstance notifications ;;
         logger info ("Sent " +:+ pretty (length notifications)
                        +:+ " notifications via " +:+ channel))
        (fun _ => logger error ("Error processing batch for channel " +:+ channel +:+ ":"))
  end.

(** [processBatch()] started at time [now] and run to its end with no other
    turn of the event loop in between: every sender has settled before
    anything else happens to the instance. (The turns that can come between
    its [await]s are those of [Loop], below.) *)
Definition processBatch (now : Z) : M unit :=
  queue ← gets notificationQueue;
  if (length queue =? 0)%nat then ret tt
  else
    try_catch
      (let batch := take batchSize queue in
       modify (set_queue (drop batchSize queue)) ;;
       logger info ("Processing notification batch: " +:+ pretty (length batch)
                      +:+ " notifications") ;;
       let batchedByChannel := groupBatchByChannel batch in
       for_each batchedByChannel
         (fun '(channel, notifications) => processChannelBatch channel notifications) ;;
       rest ← gets notificationQueue;
       if (0 <? length rest)%nat then scheduleBatchProcessing now else ret tt)
      (fun _ => logger error "Error processing notification batch:").

(** The callback of the timeout due at [due], fired at time [now]:
    [() => { this.processBatch(); this.batchTimer = null; }], together with
    the rest of the flush it starts, run to its end with no other turn in
    between. [processBatch] is started, not awaited: [batchTimer = null]
    runs as soon as it suspends at its first [await], or after it has
    returned if it never suspends, which is the case when the queue is empty
    or no notification of the batch names a channel. Before its first
    [await] a flush with channels to serve neither reads nor writes
    [batchTimer]. The callback alone, up to that [await], is
    [timeout_fires], below. *)
Definition batchTimerCallback (due now : Z) : M unit :=
  modify (fun s => set_timeouts (remove_first due (timeouts s)) s) ;;
  queue ← gets notificationQueue;
  match groupBatchByChannel (take batchSize queue) with
  | [] => processBatch now ;; modify (set_batchTimer None)
  | _ => modify (set_batchTimer None) ;; processBatch now
  end.

(** The callback of [startBatchProcessor]'s interval, with the flush it
    starts run to its end. *)
Definition sweepCallback (now : Z) : M unit :=
  queue ← gets notificationQueue;
  if (0 <? length queue)%nat then processBatch now else ret tt.

(** A sequence of [publish] calls, each awaited by the same caller. *)
Fixpoint publish_all (calls : list (Env * Z * JsValue * JsValue)) : M unit :=
  match calls with
  | [] => ret tt
  | (env, now, eventType, data) :: calls' =>
      publish env now eventType data ;; publish_all calls'
  end.

End Service.

(** ** A runtime to evaluate examples with *)

(** Interpolation of the values of [JsValue]: an array is its elements
    joined by commas, [null] and [undefined] elements being empty. *)
Fixpoint to_string (v : JsValue) : string :=
  match v with
  | JUndefined => "undefined"
  | JNull => "null"
  | JBool b => if b then "true" else "false"
  | JNum z => pretty z
  | JStr s => s
  | JArr xs =>
      (fix join (l : list JsValue) : string :=
         match l with
         | [] => EmptyString
         | x :: l' =>
             (if nullish x then EmptyString else to_string x)
               +:+ match l' with [] => EmptyString | _ => "," +:+ join l' end
         end) xs
  | JObj _ => "[object Object]"
  end.

Definition digit_value (c : Ascii.ascii) : option Z :=
  let n := Z.of_nat (Ascii.nat_of_ascii c) in
  if (48 <=? n) && (n <=? 57) then Some (n - 48) else None.

Fixpoint digits_value (acc : Z) (s : string) : option Z :=
  match s with
  | EmptyString => Some acc
  | String c s' =>
      match digit_value c with
      | Some d => digits_value (10 * acc + d) s'
      | None => None
      end
  end.

(** Reads the non-empty strings of decimal digits as numbers and takes every
    other string as not numeric. *)
Definition digits_gt (s : string) (k : Z) : bool :=
  match s with
  | EmptyString => false
  | _ => match digits_value 0 s with
         | Some z => k <? z
         | None => false
         end
  end.

Definition exampleRuntime : Runtime :=
  {| ToString := to_string; string_gt := digits_gt |}.

Definition exampleEnv (now : Z) : Env :=
  {| isoNow := "2024-01-01T00:00:00.000Z"; dateNow := now; randomSuffix := "k3j9x0q1z" |}.

(** ** Vocabulary of the statements and example inputs *)

(** Two payloads of a [task_assigned] event that differ in [estimatedValue]
    only. *)
Definition large_task : JsValue :=
  obj [("title", JStr "Review"); ("estimatedValue", JNum 2000000)].

Definition small_task : JsValue :=
  obj [("title", JStr "Review"); ("estimatedValue", JNum 5)].

(** Descending in priority. *)
Definition by_priority_desc : list Notification -> Prop :=
  StronglySorted (fun a b => priority b <= priority a).

(** The members of a channel's group, empty when the channel has none. *)
Definition members (grouped : Grouped) (channel : string) : list Notification :=
  default [] (group_get grouped channel).

(** The groups are keyed by distinct channels and none is empty. *)
Definition well_grouped (grouped : Grouped) : Prop :=
  NoDup (map fst grouped) /\ Forall (fun g => snd g <> []) grouped.

(** What a flush hands to the sender of a channel: the channel's sub-batch
    in sorted order if a sender is registered, nothing otherwise. *)
Definition handed (reg : gmap string Sender) (channel : string)
    (notifications : list Notification) : list (string * list Notification) :=
  match reg !! channel with
  | Some _ => [(channel, sort_by_priority notifications)]
  | None => []
  end.

Definition deliveries (reg : gmap string Sender) (grouped : Grouped)
    : list (string * list Notification) :=
  flat_map (fun g => handed reg (fst g) (snd g)) grouped.

(** The fields of the instance that routing leaves alone. *)
Definition same_engine (s s' : ServiceState) : Prop :=
  notificationQueue s' = notificationQueue s /\
  batchTimer s' = batchTimer s /\
  rateLimiters s' = rateLimiters s /\
  registered s' = registered s /\
  timeouts s' = timeouts s /\
  emitted s' = emitted s.

(** Ten events without recipient, published one millisecond apart on a
    fresh instance. *)
Definition ten_calls : list (Env * Z * JsValue * JsValue) :=
  map (fun now => (exampleEnv now, now, JStr PROPOSAL_CREATED, obj [("title", JStr "Deal")]))
      [0; 1; 2; 3; 4; 5; 6; 7; 8; 9].

Definition example_notification (i : string) (t : string) (p : Z)
    (cs : list string) (d : list (string * JsValue)) (m : list (string * JsValue))
    : Notification :=
  {| id := i; type := JStr t; timestamp := "2024-01-01T00:00:00.000Z";
     data := list_to_map d; title := t; message := t; priority := p;
     channels := cs; metadata := obj m; userId := JUndefined |}.

(** A MEDIUM notification for recipient [u1]. *)
Definition medium_u1 : Notification :=
  example_notification "n1" PROPOSAL_CREATED MEDIUM [IN_APP; EMAIL]
    [("userId", JStr "u1")] [].

(** An instance on which [u1] was admitted once, at time 0. *)
Definition after_u1 : ServiceState :=
  set_rateLimiters [(JStr "u1", {| lastNotification := 0; count := 1 |})] initial.



Definition low_example : Notification :=
  example_notification "n2" RFP_PARSED LOW [IN_APP] [] [].

Definition urgent_example : Notification :=
  example_notification "n3" DEADLINE_ALERT URGENT [IN_APP; EMAIL; SLACK] [] [].

Definition critical_example : Notification :=
  example_notification "n4" ESCALATION CRITICAL [IN_APP; EMAIL; SLACK; TEAMS] []
    [("reason", JStr "SLA breach"); ("escalatedTo", JStr "gm-1")].

(** Same priority, type, metadata and [estimatedValue] as [medium_u1];
    another id and another recipient. *)
Definition medium_u2 : Notification :=
  example_notification "n5" PROPOSAL_CREATED MEDIUM [IN_APP; EMAIL]
    [("userId", JStr "u2")] [].

(** A sender whose [sendBatch] raises. *)
Definition failing_sender : Sender := fun _ => Throw (Error "SMTP down").

(** An instance whose email sender fails, that has no Slack sender, and
    whose queue holds a LOW in-app notification followed by an URGENT one
    for in-app, email and Slack. *)
Definition degraded : ServiceState :=
  {| notificationQueue := [low_example; urgent_example];
     batchTimer := None;
     rateLimiters := [];
     registered := <[IN_APP := quiet_sender]> (<[EMAIL := failing_sender]> ∅);
     timeouts := [];
     emitted := [];
     sent := [];
     logged := [] |}.

(** The payload of the end-to-end scenario. *)
Definition escalation_payload : JsValue :=
  obj [("reason", JStr "SLA breach"); ("escalatedTo", JStr "gm-1")].

(** A [proposal_created] event for recipient [u1]; its notification stays
    at MEDIUM. *)
Definition deal_for_u1 : JsValue :=
  obj [("title", JStr "Deal"); ("userId", JStr "u1")].

(** Two [publish] calls for [u1], the second [gap] milliseconds after the
    first, on a fresh instance. *)
Definition two_for_u1 (gap : Z) : ServiceState :=
  snd (publish_all exampleRuntime
         [(exampleEnv 0, 0, JStr PROPOSAL_CREATED, deal_for_u1);
          (exampleEnv gap, gap, JStr PROPOSAL_CREATED, deal_for_u1)]
         initial).

(** A [proposal_created] payload whose [clientName] is a number. *)
Definition numeric_client : JsValue :=
  obj [("title", JStr "Deal"); ("clientName", JNum 42)].

(** ** The event loop around the instance *)

(** What can happen to an instance: a [publish] call, the firing of the
    timeout due at [due], a tick of the interval of [startBatchProcessor].
    [now] is the time at which it happens. Here a flush that is started
    runs to its end within the event; the histories in which it is
    suspended while other things happen are those of [Turn], below. *)
Inductive Event : Type :=
| Publish (env : Env) (now : Z) (eventType data : JsValue)
| Timeout (due now : Z)
| Sweep (now : Z).

Definition pending (due : Z) (s : ServiceState) : bool :=
  existsb (fun t => t =? due) (timeouts s).

(** One event. A timeout fires only while it is pending; the module never
    clears a timeout. *)
Definition step (rt : Runtime) (ev : Event) (s : ServiceState) : ServiceState :=
  match ev with
  | Publish env now eventType data => snd (publish rt env now eventType data s)
  | Timeout due now =>
      if pending due s then snd (batchTimerCallback due now s) else s
  | Sweep now => snd (sweepCallback now s)
  end.

Definition run (rt : Runtime) (events : list Event) (s : ServiceState) : ServiceState :=
  fold_left (fun s ev => step rt ev s) events s.

(** ** Flushes that overlap other turns *)

(** A [processBatch] call that is suspended at an [await]: inside
    [processChannelBatch], until the [sendBatch] it has called settles, or
    between two channels. [rest] are the channels it has not started. *)
Inductive Flight : Type :=
| Sending (channel : string) (notifications : list Notification)
    (channelInstance : Sender) (rest : Grouped)
| Between (rest : Grouped).

(** [processChannelBatch(channel, notifications)] up to the [await] it
    leaves its caller at: that of [sendBatch], once the sorted sub-batch has
    been handed over, or the caller's own when the channel is not
    registered. *)
Definition processChannelBatch_begin (channel : string)
    (notifications : list Notification) (rest : Grouped) (s : ServiceState)
    : ServiceState * Flight :=
  match registered s !! channel with
  | None => (add_logged warn ("Channel " +:+ channel +:+ " not found") s, Between rest)
  | Some channelInstance =>
      let notifications := sort_by_priority notifications in
      (add_sent channel notifications s,
       Sending channel notifications channelInstance rest)
  end.

(** The loop of [processBatch] with the channels [rest] still to serve, up
    to its next [await]; after the last channel, at time [now], the timer is
    armed again if the queue is not empty, and the call ends. *)
Definition processBatch_next (now : Z) (rest : Grouped) (s : ServiceState)
    : ServiceState * option Flight :=
  match rest with
  | [] =>
      (if (0 <? length (notificationQueue s))%nat
       then snd (scheduleBatchProcessing now s) else s,
       None)
  | (channel, notifications) :: rest' =>
      let '(s', flight) := processChannelBatch_begin channel notifications rest' s in
      (s', Some flight)
  end.

(** [processBatch()] up to its first [await]. *)
Definition processBatch_begin (now : Z) (s : ServiceState)
    : ServiceState * option Flight :=
  let queue := notificationQueue s in
  if (length queue =? 0)%nat then (s, None)
  else
    let batch := take batchSize queue in
    processBatch_next now (groupBatchByChannel batch)
      (add_logged info ("Processing notification batch: " +:+ pretty (length batch)
                          +:+ " notifications")
         (set_queue (drop batchSize queue) s)).

(** A suspended flush goes on, at time [now], up to its next [await]: the
    sender it waited for has settled and the outcome is logged, or the next
    channel is started. *)
Definition resume (now : Z) (flight : Flight) (s : ServiceState)
    : ServiceState * option Flight :=
  match flight with
  | Sending channel notifications channelInstance rest =>
      (match channelInstance notifications with
       | Normal _ =>
           add_logged info ("Sent " +:+ pretty (length notifications)
                              +:+ " notifications via " +:+ channel) s
       | Throw _ =>
           add_logged error ("Error processing batch for channel " +:+ channel +:+ ":") s
       end,
       Some (Between rest))
  | Between rest => processBatch_next now rest s
  end.

(** A suspended flush run to its end with no other turn in between. *)
Fixpoint complete (fuel : nat) (now : Z) (flight : option Flight) (s : ServiceState)
    : ServiceState :=
  match flight, fuel with
  | Some flight, S fuel' =>
      let '(s', flight') := resume now flight s in complete fuel' now flight' s'
  | _, _ => s
  end.

(** A bound on the times a suspended flush goes on before it ends: two
    for each channel, one more for the end. *)
Definition awaits (flight : option Flight) : nat :=
  match flight with
  | None => 0
  | Some (Sending _ _ _ rest) => 2 * length rest + 3
  | Some (Between rest) => 2 * length rest + 2
  end.

(** The instance together with the flushes that are suspended. A sender
    that never settles leaves its flush here for good. *)
Record Loop : Type := {
  service : ServiceState;
  flights : list Flight
}.

(** The turns of the event loop that touch the instance: a [publish] call,
    the firing of the timeout due at [due], a tick of the interval of
    [startBatchProcessor], and the [i]-th suspended flush going on. *)
Inductive Turn : Type :=
| Called (env : Env) (now : Z) (eventType data : JsValue)
| Fired (due now : Z)
| Ticked (now : Z)
| Resumed (i : nat) (now : Z).

(** [() => { this.processBatch(); this.batchTimer = null; }] *)
Definition timeout_fires (due now : Z) (l : Loop) : Loop :=
  let s := service l in
  let '(s', flight) :=
    processBatch_begin now (set_timeouts (remove_first due (timeouts s)) s) in
  {| service := set_batchTimer None s';
     flights := flights l ++ option_list flight |}.

(** [() => { if (this.notificationQueue.length > 0) this.processBatch(); }] *)
Definition interval_ticks (now : Z) (l : Loop) : Loop :=
  if (0 <? length (notificationQueue (service l)))%nat then
    let '(s', flight) := processBatch_begin now (service l) in
    {| service := s'; flights := flights l ++ option_list flight |}
  else l.

Definition flush_resumes (i : nat) (now : Z) (l : Loop) : Loop :=
  match flights l !! i with
  | None => l
  | Some flight =>
      let '(s', flight') := resume now flight (service l) in
      {| service := s';
         flights := match flight' with
                    | Some flight' => <[i := flight']> (flights l)
                    | None => delete i (flights l)
                    end |}
  end.

(** One turn. A timeout fires only while it is pending. *)
Definition turn (rt : Runtime) (t : Turn) (l : Loop) : Loop :=
  match t with
  | Called env now eventType data =>
      {| service := snd (publish rt env now eventType data (service l));
         flights := flights l |}
  | Fired due now => if pending due (service l) then timeout_fires due now l else l
  | Ticked now => interval_ticks now l
  | Resumed i now => flush_resumes i now l
  end.

Definition play (rt : Runtime) (turns : list Turn) (l : Loop) : Loop :=
  fold_left (fun l t => turn rt t l) turns l.

(** The handle kept in [batchTimer] is a pending timeout, and a non-empty
    queue has a timeout pending or a flush suspended, which arms one when it
    ends. *)
Definition queue_is_covered (l : Loop) : Prop :=
  (forall due, batchTimer (service l) = Some due -> In due (timeouts (service l))) /\
  (notificationQueue (service l) <> [] -> timeouts (service l) <> [] \/ flights l <> []).

(** The queue is what is left, at the end, of the notifications admitted so
    far. *)
Definition queue_is_backlog (s : ServiceState) : Prop :=
  exists flushed, emitted s = flushed ++ notificationQueue s.

(** The notifications the classifier can build: priority on the scale, the
    in-app channel first, every channel one of the four of the module and
    listed once, no [userId] of their own. *)
Definition well_formed (n : Notification) : Prop :=
  LOW <= priority n <= CRITICAL /\
  (exists others, channels n = IN_APP :: others) /\
  NoDup (channels n) /\
  Forall (fun c => In c [IN_APP; EMAIL; SLACK; TEAMS]) (channels n) /\
  userId n = JUndefined.

(** An event that is classified by the recognized case of [type] builds
    its metadata from fixed payload fields, [clientName] not among them. *)
Definition metadata_without_clientName (eventType : JsValue) : bool :=
  existsb (strict_eq_str eventType)
    [PROPOSAL_APPROVED; PROPOSAL_SUBMITTED; TASK_ASSIGNED;
     DEADLINE_ALERT; COMPLIANCE_LOW; AI_DRAFT_GENERATED; ESCALATION].

(** ** User preferences ([this.userPreferences]) *)

(** [loadUserPreferences(userId)]: the defaults. Its [try] cannot fail. *)
Definition loadUserPreferences (userId : JsValue) : JsValue :=
  obj [("userId", userId);
       ("channels", obj [(IN_APP, JBool true); (EMAIL, JBool true);
                         (SLACK, JBool false); (TEAMS, JBool false)]);
       ("types", obj [(PROPOSAL_CREATED, JBool true); (PROPOSAL_APPROVED, JBool true);
                      (DEADLINE_ALERT, JBool true)]);
       ("quietHours", obj [("enabled", JBool false); ("start", JStr "22:00");
                           ("end", JStr "08:00")]);
       ("doNotDisturb", obj [("enabled", JBool false)])].

(** [getUserPreferences(userId)] up to its [await]: the cached preferences
    on a hit; on a miss the defaults are loaded and the call is suspended
    before it writes them to the cache. *)
Inductive Lookup : Type :=
| Hit (preferences : JsValue)
| Loading (userId preferences : JsValue).

Definition getUserPreferences_begin (userId : JsValue) (userPreferences : JsMap JsValue)
    : Lookup :=
  match map_get userPreferences userId with
  | Some preferences => Hit preferences
  | None => Loading userId (loadUserPreferences userId)
  end.

(** The rest of a suspended [getUserPreferences]: the loaded preferences are
    cached and returned. *)
Definition getUserPreferences_resume (userId preferences : JsValue)
    (userPreferences : JsMap JsValue) : JsValue * JsMap JsValue :=
  (preferences, map_set userPreferences userId preferences).

(** [getUserPreferences(userId)] when nothing else touches the cache while
    it loads: what it returns and the cache afterwards. *)
Definition getUserPreferences (userId : JsValue) (userPreferences : JsMap JsValue)
    : JsValue * JsMap JsValue :=
  match getUserPreferences_begin userId userPreferences with
  | Hit preferences => (preferences, userPreferences)
  | Loading userId preferences =>
      getUserPreferences_resume userId preferences userPreferences
  end.

(** [updateUserPreferences(userId, preferences)]: the cache afterwards (it
    is written before the first [await]) and what [saveUserPreferences]
    logs: its line, or nothing when [userId] does not convert to a string;
    the log statement of its [try] then raises, the one of its [catch]
    raises again, and the call raises to its caller with the cache
    written. *)
Definition updateUserPreferences (rt : Runtime) (userId preferences : JsValue)
    (userPreferences : JsMap JsValue) : JsMap JsValue * list (Level * string) :=
  (map_set userPreferences userId preferences,
   match template rt userId with
   | Normal shown => [(info, "Saved preferences for user " +:+ shown)]
   | Throw _ => []
   end).

(** ** The senders of the module *)

Definition nl : string := String (Ascii.ascii_of_nat 10) EmptyString.

(** The lines of a template literal. *)
Definition lines (l : list string) : string := String.concat nl l.

(** [grouped.has(k) || grouped.set(k, []); grouped.get(k).push(x)] on a
    [Map] of arrays. *)
Fixpoint map_push {A} (m : JsMap (list A)) (k : JsValue) (x : A) : JsMap (list A) :=
  match m with
  | [] => [(k, [x])]
  | (k', xs) :: m' =>
      if same_value_zero k' k then (k', xs ++ [x]) :: m'
      else (k', xs) :: map_push m' k x
  end.

Module EmailChannel.

(** [notification.data?.assignedTo?.email ||
     notification.data?.createdBy?.email || notification.userId] *)
Definition getRecipient (notification : Notification) : JsValue :=
  js_or (js_or (opt_prop (field (data notification) "assignedTo") "email")
               (opt_prop (field (data notification) "createdBy") "email"))
        (userId notification).

Definition groupByRecipient (notifications : list Notification)
    : JsMap (list Notification) :=
  fold_left (fun grouped notification =>
               map_push grouped (getRecipient notification) notification)
            notifications [].

Record EmailData : Type := {
  subject : string;
  html : string;
  text : string
}.

Definition aggregateNotifications (rt : Runtime) (notifications : list Notification)
    : EmailData :=
  let subject :=
    match notifications with
    | [n] => title n
    | _ => "You have " +:+ ToString rt (JNum (Z.of_nat (length notifications)))
             +:+ " new notifications"
    end in
  let notificationsHtml :=
    String.concat EmptyString
      (map (fun n =>
         lines
           [EmptyString;
            "      <div style=" +:+ dq +:+ "border-left: 3px solid #e5e7eb; padding: 10px; margin-bottom: 10px;" +:+ dq +:+ ">";
            "        <h4 style=" +:+ dq +:+ "margin: 0 0 10px 0; color: #333;" +:+ dq +:+ ">" +:+ title n +:+ "</h4>";
            "        <p style=" +:+ dq +:+ "margin: 0 0 5px 0; color: #666;" +:+ dq +:+ ">" +:+ message n +:+ "</p>";
            "        <small style=" +:+ dq +:+ "color: #999;" +:+ dq +:+ ">Priority: " +:+ ToString rt (JNum (priority n)) +:+ " | Channel: " +:+ String.concat ", " (channels n) +:+ "</small>";
            "      </div>";
            "    "])
         notifications) in
  {| subject := subject;
     html :=
       lines
         [EmptyString;
          "        <div style=" +:+ dq +:+ "font-family: Arial, sans-serif; max-width: 600px; margin: 0 auto;" +:+ dq +:+ ">";
          "          <h2 style=" +:+ dq +:+ "color: #333;" +:+ dq +:+ ">Notification Summary</h2>";
          "          " +:+ notificationsHtml;
          "          <hr style=" +:+ dq +:+ "border: none; border-top: 1px solid #eee; margin: 20px 0;" +:+ dq +:+ ">";
          "          <p style=" +:+ dq +:+ "color: #666; font-size: 12px;" +:+ dq +:+ ">";
          "            Sent from Enterprise Proposal System";
          "          </p>";
          "        </div>";
          "      "];
     text :=
       subject +:+ nl +:+ nl
         +:+ String.concat (nl +:+ nl)
               (map (fun n => title n +:+ ": " +:+ message n) notifications) |}.

Definition generateEmailHTML (emailData : EmailData) : string :=
  lines
    [EmptyString;
     "      <!DOCTYPE html>";
     "      <html>";
     "      <head>";
     "        <meta charset=" +:+ dq +:+ "utf-8" +:+ dq +:+ ">";
     "        <title>" +:+ subject emailData +:+ "</title>";
     "      </head>";
     "      <body>";
     "        " +:+ html emailData;
     "      </body>";
     "      </html>";
     "    "].

(** The argument of [sendSMTP]: [{to, subject, html, text}]. *)
Record EmailOptions : Type := {
  to : JsValue;
  mail_subject : string;
  mail_html : string;
  mail_text : string
}.

(** [sendEmail(recipient, notifications)]: the message given to [sendSMTP]
    and the lines logged. The stand-in of [sendSMTP] logs a line that
    interpolates the recipient and resolves; a second line follows. When the
    recipient does not convert to a string, the line of [sendSMTP] raises,
    the one of the [catch] raises again, nothing is logged and [sendEmail]
    raises to its caller. *)
Definition sendEmail (rt : Runtime) (recipient : JsValue)
    (notifications : list Notification) : EmailOptions * list (Level * string) :=
  let emailData := aggregateNotifications rt notifications in
  let emailHtml := generateEmailHTML emailData in
  ({| to := recipient; mail_subject := subject emailData;
      mail_html := emailHtml; mail_text := text emailData |},
   match template rt recipient with
   | Normal shown =>
       [(info, "Sending email to " +:+ shown +:+ ": " +:+ subject emailData);
        (info, "Email sent to " +:+ shown +:+ " with "
                 +:+ ToString rt (JNum (Z.of_nat (length notifications)))
                 +:+ " notifications")]
   | Throw _ => []
   end).

(** The loop of [sendBatch] over the groups: a [sendEmail] that raises ends
    it, and the [catch] of [sendBatch] logs its line. *)
Fixpoint sendEach (rt : Runtime) (groupedByRecipient : JsMap (list Notification))
    : list EmailOptions * list (Level * string) :=
  match groupedByRecipient with
  | [] => ([], [])
  | (recipient, recipientNotifications) :: rest =>
      let '(mail, logged) := sendEmail rt recipient recipientNotifications in
      match template rt recipient with
      | Throw _ => ([mail], logged ++ [(error, "Error sending email batch:")])
      | Normal _ =>
          let '(mails, logged') := sendEach rt rest in
          (mail :: mails, logged ++ logged')
      end
  end.

(** [sendBatch(notifications)]: the messages given to [sendSMTP], in order,
    and the lines logged. *)
Definition sendBatch (rt : Runtime) (notifications : list Notification)
    : list EmailOptions * list (Level * string) :=
  sendEach rt (groupByRecipient notifications).

End EmailChannel.

Module InAppChannel.

(** A connection, seen from [emit]: what serializing a frame and passing it
    to [ws.send] does, return or raise, given the notifications already
    sent over this connection. *)
Definition Ws : Type := list Notification -> Notification -> Completion unit.

(** An entry of [this.connectedClients], with the notifications sent over
    it so far. *)
Record Client : Type := {
  clientId : JsValue;
  ws : Ws;
  delivered : list Notification
}.

(** [addConnection(clientId, ws)]: [Map.set]. *)
Fixpoint addConnection (id : JsValue) (w : Ws) (connectedClients : list Client)
    : list Client :=
  match connectedClients with
  | [] => [{| clientId := id; ws := w; delivered := [] |}]
  | c :: rest =>
      if same_value_zero (clientId c) id
      then {| clientId := clientId c; ws := w; delivered := [] |} :: rest
      else c :: addConnection id w rest
  end.

(** [removeConnection(clientId)]: [Map.delete]. *)
Fixpoint removeConnection (id : JsValue) (connectedClients : list Client) : list Client :=
  match connectedClients with
  | [] => []
  | c :: rest =>
      if same_value_zero (clientId c) id then rest else c :: removeConnection id rest
  end.

(** What a call leaves behind: whether it returned or raised, the
    connections afterwards and the lines it logged. *)
Record Outcome : Type := {
  completion : Completion unit;
  connections : list Client;
  log_lines : list (Level * string)
}.

(** [emit('notification', {type: 'in_app', notification})]: every
    connection is tried in turn; the entry of one whose send raises is
    deleted, which does not disturb the iteration over the others. The
    [catch] interpolates [clientId] into its log line before it deletes the
    entry: when that raises, the entry stays, nothing is logged and the
    exception leaves [emit] with the later connections untried. *)
Fixpoint emit (rt : Runtime) (notification : Notification)
    (connectedClients : list Client) : Outcome :=
  match connectedClients with
  | [] => {| completion := Normal tt; connections := []; log_lines := [] |}
  | c :: rest =>
      match ws c (delivered c) notification with
      | Normal _ =>
          let others := emit rt notification rest in
          {| completion := completion others;
             connections :=
               {| clientId := clientId c; ws := ws c;
                  delivered := delivered c ++ [notification] |} :: connections others;
             log_lines := log_lines others |}
      | Throw _ =>
          match template rt (clientId c) with
          | Throw e =>
              {| completion := Throw e; connections := c :: rest; log_lines := [] |}
          | Normal shown =>
              let others := emit rt notification rest in
              {| completion := completion others;
                 connections := connections others;
                 log_lines :=
                   (error, "Error sending to client " +:+ shown +:+ ":")
                     :: log_lines others |}
          end
      end
  end.

Definition broadcast (rt : Runtime) (notification : Notification)
    (connectedClients : list Client) : Outcome :=
  emit rt notification connectedClients.

(** [sendBatch(notifications)]: an exception that leaves [broadcast] ends
    the loop, and the call. *)
Fixpoint sendBatch (rt : Runtime) (notifications : list Notification)
    (connectedClients : list Client) : Outcome :=
  match notifications with
  | [] => {| completion := Normal tt; connections := connectedClients; log_lines := [] |}
  | notification :: notifications' =>
      let first := broadcast rt notification connectedClients in
      match completion first with
      | Throw _ => first
      | Normal _ =>
          let others := sendBatch rt notifications' (connections first) in
          {| completion := completion others;
             connections := connections others;
             log_lines := log_lines first ++ log_lines others |}
      end
  end.

End InAppChannel.

(** What [fetch] answers to a POST: a response with its [ok] flag and
    status, or a rejection. *)
Inductive FetchResult : Type :=
| Response (ok : bool) (status : Z)
| Rejected (e : JsError).

Module SlackChannel.

Record Field : Type := {
  field_title : string;
  value : JsValue;
  short : bool
}.

Record Attachment : Type := {
  color : string;
  fields : list Field
}.

Record Payload : Type := {
  text : string;
  attachments : list Attachment
}.

Definition getSlackColor (priority : Z) : string :=
  if priority =? LOW then "#6B7280"
  else if priority =? MEDIUM then "#3B8BB8"
  else if priority =? HIGH then "#F59E0B"
  else if priority =? URGENT then "#EF4444"
  else if priority =? CRITICAL then "#DC2626"
  else "#6B7280".

(** [generateSlackPayload(notifications)]. On an empty batch
    [notifications[0]] is [undefined] and reading its [title] raises. *)
Definition generateSlackPayload (notifications : list Notification)
    : Completion Payload :=
  let attachments :=
    map (fun n =>
           {| color := getSlackColor (priority n);
              fields :=
                [{| field_title := "Title"; value := JStr (title n); short := false |};
                 {| field_title := "Message"; value := JStr (message n); short := false |};
                 {| field_title := "Priority"; value := JNum (priority n); short := true |}] |})
        (drop 1 notifications) in
  match notifications with
  | [] => Throw (TypeError "Cannot read properties of undefined")
  | primaryNotification :: _ =>
      Normal
        {| text := title primaryNotification;
           attachments :=
             {| color := getSlackColor (priority primaryNotification);
                fields :=
                  [{| field_title := "Message"; value := JStr (message primaryNotification);
                      short := false |};
                   {| field_title := "Priority"; value := JNum (priority primaryNotification);
                      short := true |};
                   {| field_title := "Channels";
                      value := JStr (String.concat ", " (channels primaryNotification));
                      short := true |}] |}
             :: attachments |}
  end.

(** [sendBatch(notifications)] with [this.webhookUrl] and the answer of
    [fetch] to the POST: the payloads posted and the lines logged. *)
Definition sendBatch (rt : Runtime) (webhookUrl : JsValue)
    (fetch : Payload -> FetchResult) (notifications : list Notification)
    : list Payload * list (Level * string) :=
  if negb (ToBoolean webhookUrl) then ([], [(warn, "Slack webhook URL not configured")])
  else
    match generateSlackPayload notifications with
    | Throw _ => ([], [(error, "Error sending Slack notification:")])
    | Normal slackPayload =>
        match fetch slackPayload with
        | Response true _ =>
            ([slackPayload],
             [(info, "Slack notification sent: "
                       +:+ ToString rt (JNum (Z.of_nat (length notifications)))
                       +:+ " notifications")])
        | Response false _ | Rejected _ =>
            ([slackPayload], [(error, "Error sending Slack notification:")])
        end
    end.

End SlackChannel.

Module TeamsChannel.

Record Fact : Type := {
  name : string;
  value : JsValue
}.

(** The MessageCard of [generateTeamsPayload], its fixed parts left out:
    the theme colour and summary, the title, subtitle and facts of the first
    section, the text of the second, the link of the action. *)
Record Payload : Type := {
  themeColor : string;
  summary : string;
  activityTitle : string;
  activitySubtitle : string;
  facts : list Fact;
  text : string;
  uri : string
}.

Definition getTeamsColor (priority : Z) : string :=
  if priority =? LOW then "6B7280"
  else if priority =? MEDIUM then "3B8BB8"
  else if priority =? HIGH then "F59E0B"
  else if priority =? URGENT then "EF4444"
  else if priority =? CRITICAL then "DC2626"
  else "6B7280".

(** [generateTeamsPayload(notifications)]; [frontendUrl] is
    [process.env.FRONTEND_URL]. *)
Definition generateTeamsPayload (rt : Runtime) (frontendUrl : JsValue)
    (notifications : list Notification) : Completion Payload :=
  match notifications with
  | [] => Throw (TypeError "Cannot read properties of undefined")
  | primaryNotification :: _ =>
      Normal
        {| themeColor := getTeamsColor (priority primaryNotification);
           summary := title primaryNotification;
           activityTitle := "Enterprise Proposal System";
           activitySubtitle := message primaryNotification;
           facts :=
             [{| name := "Priority"; value := JNum (priority primaryNotification) |};
              {| name := "Type"; value := type primaryNotification |};
              {| name := "Channels";
                 value := JStr (String.concat ", " (channels primaryNotification)) |}];
           text := "Additional notifications: "
                     +:+ ToString rt (JNum (Z.of_nat (length notifications) - 1))
                     +:+ " more";
           uri := ToString rt frontendUrl +:+ "/notifications/"
                    +:+ id primaryNotification |}
  end.

Definition sendBatch (rt : Runtime) (webhookUrl frontendUrl : JsValue)
    (fetch : Payload -> FetchResult) (notifications : list Notification)
    : list Payload * list (Level * string) :=
  if negb (ToBoolean webhookUrl) then ([], [(warn, "Teams webhook URL not configured")])
  else
    match generateTeamsPayload rt frontendUrl notifications with
    | Throw _ => ([], [(error, "Error sending Teams notification:")])
    | Normal teamsPayload =>
        match fetch teamsPayload with
        | Response true _ =>
            ([teamsPayload],
             [(info, "Teams notification sent: "
                       +:+ ToString rt (JNum (Z.of_nat (length notifications)))
                       +:+ " notifications")])
        | Response false _ | Rejected _ =>
            ([teamsPayload], [(error, "Error sending Teams notification:")])
        end
    end.

End TeamsChannel.

(** The members of the group of a key, empty when the key has none. *)
Definition group_of {A} (m : JsMap (list A)) (k : JsValue) : list A :=
  default [] (map_get m k).

(** A notification built by the classifier whose payload names neither an
    assignee nor a creator with an e-mail address. *)
Definition no_address (n : Notification) : Prop :=
  userId n = JUndefined /\
  ToBoolean (opt_prop (field (data n) "assignedTo") "email") = false /\
  ToBoolean (opt_prop (field (data n) "createdBy") "email") = false.

(** A connection whose sends never raise. *)
Definition reliable (w : InAppChannel.Ws) : Prop :=
  forall sent_before notification, w sent_before notification = Normal tt.

(** * Properties *)

(** ** Event classifier *)


(** A primitive always converts, to the string of the runtime. *)
Lemma template_findable rt v : findable v -> template rt v = Normal (ToString rt v).
Proof. destruct v; cbn; intros H; try reflexivity; discriminate. Qed.

Lemma converts_findable rt v : findable v -> converts rt v.
Proof. intros H. eexists. apply template_findable, H. Qed.

Lemma converts_or_raises rt v : converts rt v \/ exists e, template rt v = Throw e.
Proof. unfold converts. destruct (template rt v); eauto. Qed.

Lemma not_converts rt v : ~ converts rt v -> exists e, template rt v = Throw e.
Proof. intros H. destruct (converts_or_raises rt v); [contradiction|assumption]. Qed.


Lemma strict_eq_str_true v s : strict_eq_str v s = true -> v = JStr s.
Proof.
  destruct v; cbn; try discriminate. intros H. apply String.eqb_eq in H. congruence.
Qed.

Lemma recognized_string eventType :
  recognized eventType = true -> exists s, eventType = JStr s.
Proof. destruct eventType; cbn; try discriminate. eauto. Qed.

(** On a payload that is [null] or [undefined] the recognized cases raise:
    they read properties of the payload. *)
Lemma generateNotification_nullish rt env eventType data :
  recognized eventType = true -> nullish data = true ->
  exists e, generateNotification rt env eventType data = Throw e.
Proof.
  intros Hrec Hnull. unfold generateNotification, deref. rewrite Hnull.
  unfold mbind, Completion_bind. cbn [cbind].
  repeat match goal with
         | |- context [if strict_eq_str ?a ?b then _ else _] =>
             destruct (strict_eq_str a b) eqn:?; [eexists; reflexivity|]
         end.
  unfold recognized in Hrec. cbn [existsb] in Hrec.
  repeat match goal with H : _ = false |- _ => rewrite H in Hrec; clear H end.
  discriminate.
Qed.





(** ** Rate limiter *)

Ltac unfold_M :=
  unfold logger;
  unfold mbind, M_bind, bind, mret, M_ret, ret, lift, gets, modify, try_catch.

Lemma getMinInterval_table :
  getMinInterval LOW = 60000 /\ getMinInterval MEDIUM = 30000 /\
  getMinInterval HIGH = 15000 /\ getMinInterval URGENT = 5000 /\
  getMinInterval CRITICAL = 1000.
Proof. repeat split. Qed.

Lemma isRateLimited_absent now n rl :
  ToBoolean (recipient n) = false -> isRateLimited now n rl = (false, rl).
Proof. intros H. unfold isRateLimited. rewrite H. reflexivity. Qed.

Lemma isRateLimited_present now n rl :
  ToBoolean (recipient n) = true ->
  isRateLimited now n rl =
    match map_get rl (recipient n) with
    | Some st =>
        if now - lastNotification st <? getMinInterval (priority n)
        then (true, rl)
        else (false, map_set rl (recipient n)
                       {| lastNotification := now; count := count st + 1 |})
    | None => (false, map_set rl (recipient n) {| lastNotification := now; count := 0 + 1 |})
    end.
Proof.
  intros H. unfold isRateLimited. rewrite H. cbn [negb].
  destruct (map_get rl (recipient n)) as [st|]; [|reflexivity].
  destruct (now - lastNotification st <? getMinInterval (priority n)); reflexivity.
Qed.

Lemma isRateLimited_rejects_unchanged now n rl :
  fst (isRateLimited now n rl) = true -> snd (isRateLimited now n rl) = rl.
Proof.
  unfold isRateLimited.
  destruct (negb (ToBoolean (recipient n))); [discriminate|].
  destruct (map_get rl (recipient n)) as [st|]; [|discriminate].
  destruct (now - lastNotification st <? getMinInterval (priority n)); [reflexivity|discriminate].
Qed.

(** Splits a successful call of the classifier into its nine cases. *)
Ltac classify H :=
  unfold generateNotification, interp in H;
  unfold mbind, Completion_bind in H;
  repeat match type of H with
         | context [if strict_eq_str ?a ?b then _ else _] =>
             destruct (strict_eq_str a b) eqn:?
         end;
  try (destruct (deref _) as [?d|?e] eqn:?; cbn [cbind] in H; [|discriminate H]);
  repeat match type of H with
         | context [template ?rt ?x] =>
             destruct (template rt x) as [?shown|?e] eqn:?;
             cbn [cbind] in H; [|discriminate H]
         end;
  injection H as <-.

(** The classifier returns only for an event type that converts to a
    string: a recognized one is a string, and the generic case interpolates
    the event type. *)
Lemma generateNotification_converts_type rt env eventType data n :
  generateNotification rt env eventType data = Normal n -> converts rt eventType.
Proof.
  intros H. classify H;
    repeat match goal with
           | E : strict_eq_str _ _ = true |- _ => apply strict_eq_str_true in E; subst
           end;
    try (apply converts_findable; reflexivity).
  eexists; eassumption.
Qed.

Lemma generateNotification_userId rt env eventType data n :
  generateNotification rt env eventType data = Normal n -> userId n = JUndefined.
Proof. intros H. classify H; reflexivity. Qed.

Lemma prioritize_with_userId ordered n p :
  prioritize_with ordered n = Normal p -> userId p = userId n.
Proof.
  induction ordered as [|rule ordered IH]; cbn; [intros [= <-]; reflexivity|].
  destruct (condition rule n) as [c|]; cbn; [|discriminate].
  destruct (ToBoolean c); [intros [= <-]; reflexivity|exact IH].
Qed.

Lemma same_value_zero_eq a b : same_value_zero a b = true -> a = b.
Proof.
  destruct a, b; cbn; try discriminate; try reflexivity; intros H.
  - by apply Bool.eqb_prop in H as ->.
  - by apply Z.eqb_eq in H as ->.
  - by apply String.eqb_eq in H as ->.
Qed.

Lemma map_get_set_same {V} (m : JsMap V) k v :
  findable k -> map_get (map_set m k v) k = Some v.
Proof.
  unfold findable. intros Hk. induction m as [|[k' v'] m IH]; cbn.
  - by rewrite Hk.
  - destruct (same_value_zero k' k) eqn:E; cbn; rewrite E; [reflexivity|exact IH].
Qed.

Lemma map_get_set_other {V} (m : JsMap V) k k2 v :
  same_value_zero k k2 = false -> map_get (map_set m k v) k2 = map_get m k2.
Proof.
  intros Hk. induction m as [|[k' v'] m IH]; cbn.
  - by rewrite Hk.
  - destruct (same_value_zero k' k) eqn:E; cbn.
    + destruct (same_value_zero k' k2) eqn:E2; [|reflexivity].
      apply same_value_zero_eq in E as ->. congruence.
    + destruct (same_value_zero k' k2); [reflexivity|exact IH].
Qed.

Lemma map_set_length {V} (m : JsMap V) k v :
  (length m <= length (map_set m k v) <= S (length m))%nat.
Proof.
  induction m as [|[k' v'] m IH]; cbn; [lia|].
  destruct (same_value_zero k' k); cbn; lia.
Qed.

(** What [publish] does once the classifier and the prioritizer have
    returned: either the gate rejects and only a warning is logged, or the
    notification is queued, a timer armed if none is pending, and the event
    emitted. *)
Lemma publish_after_prioritize rt env now eventType data n0 n s :
  generateNotification rt env eventType data = Normal n0 ->
  prioritize rt n0 = Normal n ->
  exists shown,
    template rt eventType = Normal shown /\
    publish rt env now eventType data s =
      let s0 := add_logged info ("Publishing event: " +:+ shown) s in
      let '(limited, r) := isRateLimited now n (rateLimiters s0) in
      let s1 := set_rateLimiters r s0 in
      if limited then
        (Normal tt,
         add_logged warn ("Rate limited notification for user: "
                            +:+ ToString rt JUndefined) s1)
      else
        let s2 := set_queue (notificationQueue s1 ++ [n]) s1 in
        let s3 := match batchTimer s2 with
                  | None => set_batchTimer (Some (now + batchTimeout))
                              (set_timeouts (timeouts s2 ++ [now + batchTimeout]) s2)
                  | Some _ => s2
                  end in
        (Normal tt, add_emitted n s3).
Proof.
  intros Hgen Hprio.
  destruct (generateNotification_converts_type _ _ _ _ _ Hgen) as [shown Hshown].
  exists shown. split; [exact Hshown|].
  assert (Hu : userId n = JUndefined).
  { rewrite (prioritize_with_userId _ _ _ Hprio).
    exact (generateNotification_userId _ _ _ _ _ Hgen). }
  unfold publish, rateLimited, scheduleBatchProcessing. unfold_M.
  rewrite Hshown, Hgen, Hprio, Hu. cbn.
  destruct (isRateLimited now n (rateLimiters s)) as [[|] r]; cbn; [reflexivity|].
  destruct (batchTimer s); reflexivity.
Qed.

(** C2. The rate-limit gate, for a recipient key that is a primitive value
    (an identifier, or none). The interval table is LOW 60s, MEDIUM 30s,
    HIGH 15s, URGENT 5s, CRITICAL 1s. Without a recipient key the gate
    admits and leaves the table as it is. With one, it rejects exactly when
    the recipient has an entry and [now - lastNotification] is strictly
    below the interval of the priority (so a recipient without entry is
    admitted); on admission the table is written: looking the recipient up
    afterwards finds [now] with the count incremented, and every other key
    is found as before; on rejection the table is unchanged, and [publish]
    drops the notification: the queue, the table, the timer, the emitted
    events and the sent batches are as before. *)
Theorem rate_limit_gate rt (now : Z) (n : Notification) (s : ServiceState) :
  let key := recipient n in
  let rl := rateLimiters s in
  findable key ->
  (getMinInterval LOW = 60000 /\ getMinInterval MEDIUM = 30000 /\
   getMinInterval HIGH = 15000 /\ getMinInterval URGENT = 5000 /\
   getMinInterval CRITICAL = 1000) /\
  (ToBoolean key = false -> isRateLimited now n rl = (false, rl)) /\
  (ToBoolean key = true ->
     (fst (isRateLimited now n rl) = true <->
      exists st, map_get rl key = Some st /\
                 now - lastNotification st < getMinInterval (priority n))) /\
  (ToBoolean key = true -> fst (isRateLimited now n rl) = false ->
     let written :=
       {| lastNotification := now;
          count := match map_get rl key with Some st => count st | None => 0 end + 1 |} in
     snd (isRateLimited now n rl) = map_set rl key written /\
     map_get (snd (isRateLimited now n rl)) key = Some written /\
     (forall other, same_value_zero key other = false ->
        map_get (snd (isRateLimited now n rl)) other = map_get rl other)) /\
  (fst (isRateLimited now n rl) = true -> snd (isRateLimited now n rl) = rl) /\
  (forall env eventType data n0,
     generateNotification rt env eventType data = Normal n0 ->
     prioritize rt n0 = Normal n ->
     exists s', publish rt env now eventType data s = (Normal tt, s') /\
       if fst (isRateLimited now n rl)
       then notificationQueue s' = notificationQueue s /\
            rateLimiters s' = rateLimiters s /\
            batchTimer s' = batchTimer s /\ timeouts s' = timeouts s /\
            emitted s' = emitted s /\ sent s' = sent s
       else notificationQueue s' = notificationQueue s ++ [n] /\
            rateLimiters s' = snd (isRateLimited now n rl)).
Proof.
  intros key rl Hfind. subst key rl.
  split; [exact getMinInterval_table|].
  split; [apply isRateLimited_absent|].
  split.
  { intros Hk. rewrite (isRateLimited_present _ _ _ Hk).
    destruct (map_get (rateLimiters s) (recipient n)) as [st|].
    - destruct (now - lastNotification st <? getMinInterval (priority n)) eqn:E; cbn.
      + split; [intros _; exists st; split; [reflexivity|lia]|reflexivity].
      + split; [discriminate|]. intros (st' & Hst & Hlt). inversion Hst; subst. lia.
    - cbn. split; [discriminate|]. intros (st' & Hst & _). discriminate. }
  split.
  { intros Hk Hadm written.
    assert (Hw : snd (isRateLimited now n (rateLimiters s))
                 = map_set (rateLimiters s) (recipient n) written).
    { subst written. revert Hadm. rewrite (isRateLimited_present _ _ _ Hk).
      destruct (map_get (rateLimiters s) (recipient n)) as [st|]; [|reflexivity].
      destruct (now - lastNotification st <? getMinInterval (priority n)); cbn;
        [discriminate|reflexivity]. }
    rewrite Hw. split; [reflexivity|]. split.
    - apply map_get_set_same, Hfind.
    - intros other Hother. apply map_get_set_other, Hother. }
  split; [apply isRateLimited_rejects_unchanged|].
  intros env eventType data n0 Hgen Hprio.
  destruct (publish_after_prioritize _ _ now _ _ _ _ s Hgen Hprio) as (shown & _ & ->).
  cbn zeta.
  change (rateLimiters (add_logged info _ s)) with (rateLimiters s).
  pose proof (isRateLimited_rejects_unchanged now n (rateLimiters s)) as Hrej.
  destruct (isRateLimited now n (rateLimiters s)) as [[|] r]; cbn [fst snd] in *.
  - eexists; split; [reflexivity|]. cbn. rewrite (Hrej eq_refl). repeat split.
  - eexists; split; [reflexivity|]. cbn. destruct (batchTimer s); cbn; split; reflexivity.
Qed.

(** ** Prioritizer *)

Lemma field_insert_eq (o : gmap string JsValue) k v : field (<[k := v]> o) k = v.
Proof. unfold field. by rewrite lookup_insert_eq. Qed.

Lemma field_insert_ne (o : gmap string JsValue) k k' v :
  k <> k' -> field (<[k := v]> o) k' = field o k'.
Proof. intros H. unfold field. by rewrite lookup_insert_ne. Qed.

Lemma adjust_reason rule n :
  get_prop (metadata (adjust rule n)) "prioritizationReason" = JStr (reason rule).
Proof. cbn. rewrite field_insert_ne by discriminate. apply field_insert_eq. Qed.

Lemma adjust_originalPriority rule n :
  get_prop (metadata (adjust rule n)) "originalPriority" = JNum (priority n).
Proof. cbn. apply field_insert_eq. Qed.


(** [prioritize] applies the rule selected by the loop, or none. *)
Lemma prioritize_with_matching_rule rules n :
  prioritize_with rules n =
    cbind (matching_rule rules n)
      (fun selected =>
         Normal match selected with Some rule => adjust rule n | None => n end).
Proof.
  induction rules as [|rule rules IH]; cbn; [reflexivity|].
  destruct (condition rule n) as [c|e]; cbn; [|reflexivity].
  destruct (ToBoolean c); [reflexivity|exact IH].
Qed.



(** Only the last two rules of the module can raise, and only when no
    earlier rule has matched. *)
Lemma prioritize_outcome rt n :
  (exists selected, matching_rule (rules rt) n = Normal selected /\
     match selected with
     | Some rule => In rule (rules rt) /\ prioritize rt n = Normal (adjust rule n)
     | None => prioritize rt n = Normal n
     end) \/
  (exists e, prioritize rt n = Throw e /\ raises_in_rules rt n e).
Proof.
  unfold prioritize. rewrite prioritize_with_matching_rule.
  unfold raises_in_rules, fails, rules.
  cbn [matching_rule condition critical_rule escalation_rule
       deadline_rule compliance_rule high_value_rule cbind ToBoolean].
  destruct (priority n =? CRITICAL) eqn:E1;
    [left; eexists; split; [reflexivity|]; cbn; auto|].
  destruct (strict_eq_str (type n) ESCALATION) eqn:E2;
    [left; eexists; split; [reflexivity|]; cbn; auto|].
  destruct (strict_eq_str (type n) DEADLINE_ALERT) eqn:E3;
    [left; eexists; split; [reflexivity|]; cbn; auto|].
  destruct (strict_eq_str (type n) COMPLIANCE_LOW) eqn:E4;
    [left; eexists; split; [reflexivity|]; cbn; auto 6|].
  assert (Hfour : Forall (fun rule => exists c, condition rule n = Normal c /\
                                               ToBoolean c = false)
                    [critical_rule; escalation_rule; deadline_rule; compliance_rule]).
  { repeat constructor; eexists; (split; [reflexivity|]); cbn; assumption. }
  destruct (js_gt rt (field (data n) "estimatedValue") 1000000) as [[|]|e] eqn:E5;
    cbn [cmap cbind ToBoolean].
  - left; eexists; split; [reflexivity|]; cbn; auto 7.
  - destruct (condition strategic_rule n) as [c|e] eqn:Hc.
    + left. cbn. destruct (ToBoolean c); eexists; (split; [reflexivity|]); cbn; auto 8.
    + right. exists e. cbn. split; [reflexivity|]. split; [exact Hfour|].
      right. split; [|reflexivity]. eexists; split; reflexivity.
  - right. exists e. split; [reflexivity|]. split; [exact Hfour|]. left. reflexivity.
Qed.


Lemma rules_adjustment_nonneg rt rule : In rule (rules rt) -> 0 <= adjustment rule.
Proof.
  unfold rules. cbn [In]. intros H.
  repeat (destruct H as [<-|H]; [cbn; lia|]). destruct H.
Qed.

(** C5. Priority monotonicity. For a notification whose priority is on the
    scale (at most CRITICAL), [prioritize] either returns a notification
    whose priority is at least the input priority and at most CRITICAL (5),
    or returns nothing because, no earlier rule having matched, evaluating
    the fifth rule's comparison of [estimatedValue] or the sixth rule's
    [clientName.includes] raised. *)
Theorem priority_monotone rt (n : Notification) :
  priority n <= CRITICAL ->
  (exists n', prioritize rt n = Normal n' /\
              priority n <= priority n' /\ priority n' <= CRITICAL) \/
  (exists e, prioritize rt n = Throw e /\ raises_in_rules rt n e).
Proof.
  intros Hp. destruct (prioritize_outcome rt n) as [(selected & _ & H)|H]; [left|right; exact H].
  destruct selected as [rule|].
  - destruct H as [Hin ->]. exists (adjust rule n). split; [reflexivity|].
    pose proof (rules_adjustment_nonneg rt rule Hin). cbn. unfold CRITICAL in *. lia.
  - exists n. rewrite H. split; [reflexivity|]. lia.
Qed.

(** What the predicates of the module's rules read. *)
Lemma rules_read_only rt n1 n2 :
  priority n1 = priority n2 ->
  type n1 = type n2 ->
  metadata n1 = metadata n2 ->
  field (data n1) "estimatedValue" = field (data n2) "estimatedValue" ->
  Forall (fun rule => condition rule n1 = condition rule n2) (rules rt).
Proof.
  intros Hp Ht Hm Hd. unfold rules.
  repeat constructor; cbn; rewrite ?Hp, ?Ht, ?Hm, ?Hd; reflexivity.
Qed.

Lemma matching_rule_ext rules n1 n2 :
  Forall (fun rule => condition rule n1 = condition rule n2) rules ->
  matching_rule rules n1 = matching_rule rules n2.
Proof.
  induction 1 as [|rule rules Hc _ IH]; cbn; [reflexivity|].
  rewrite Hc. destruct (condition rule n2) as [c|e]; cbn; [|reflexivity].
  destruct (ToBoolean c); [reflexivity|exact IH].
Qed.

(** C9, as the code has it. The predicates of the rules read the
    notification's priority, its type, its metadata and the
    [estimatedValue] of its data payload: two notifications that agree on
    these four get the same rule applied (or none, or the same exception),
    hence the same resulting priority and the same resulting metadata, with
    the same [prioritizationReason] and [originalPriority]. *)
Theorem rules_depend_on rt (n1 n2 : Notification) :
  priority n1 = priority n2 ->
  type n1 = type n2 ->
  metadata n1 = metadata n2 ->
  field (data n1) "estimatedValue" = field (data n2) "estimatedValue" ->
  matching_rule (rules rt) n1 = matching_rule (rules rt) n2 /\
  cmap (fun n' => (priority n', metadata n')) (prioritize rt n1) =
  cmap (fun n' => (priority n', metadata n')) (prioritize rt n2).
Proof.
  intros Hp Ht Hm Hd.
  assert (Hsel : matching_rule (rules rt) n1 = matching_rule (rules rt) n2).
  { apply matching_rule_ext, rules_read_only; assumption. }
  split; [exact Hsel|].
  unfold prioritize. rewrite !prioritize_with_matching_rule, Hsel.
  destruct (matching_rule (rules rt) n2) as [[rule|]|e]; cbn; rewrite ?Hp, ?Hm; reflexivity.
Qed.

(** C9 fails as stated: the two [task_assigned] notifications agree on
    priority, type and metadata, and the one whose data payload carries the
    larger [estimatedValue] is raised to HIGH by the "High value proposal"
    rule while the other passes through at MEDIUM. *)
Lemma rules_read_data_payload :
  exists n1 n2,
    generateNotification exampleRuntime (exampleEnv 0) (JStr TASK_ASSIGNED) large_task
      = Normal n1 /\
    generateNotification exampleRuntime (exampleEnv 0) (JStr TASK_ASSIGNED) small_task
      = Normal n2 /\
    priority n1 = priority n2 /\ type n1 = type n2 /\ metadata n1 = metadata n2 /\
    cmap (fun n' => (priority n', get_prop (metadata n') "prioritizationReason"))
         (prioritize exampleRuntime n1) = Normal (HIGH, JStr "High value proposal") /\
    cmap (fun n' => (priority n', get_prop (metadata n') "prioritizationReason"))
         (prioritize exampleRuntime n2) = Normal (MEDIUM, JUndefined).
Proof.
  eexists. eexists.
  split; [reflexivity|]. split; [reflexivity|].
  repeat split.
Qed.

(** C10. A notification that is already CRITICAL is matched by the first
    rule: the priority stays 5, the metadata gains [prioritizationReason]
    "Critical priority escalation" (not the reason of the later "Escalation
    event" rule) and [originalPriority] 5, so unless the metadata already
    carried that reason it is not the metadata of the input. This is the
    case of every [escalation] notification of the classifier, whose
    metadata is changed. *)
Theorem critical_always_adjusted rt :
  (forall n, priority n = CRITICAL ->
     exists n',
       prioritize rt n = Normal n' /\
       matching_rule (rules rt) n = Normal (Some critical_rule) /\
       priority n' = CRITICAL /\
       get_prop (metadata n') "prioritizationReason" = JStr "Critical priority escalation" /\
       get_prop (metadata n') "originalPriority" = JNum CRITICAL /\
       (get_prop (metadata n) "prioritizationReason" <> JStr "Critical priority escalation" ->
        metadata n' <> metadata n)) /\
  (forall env data n,
     generateNotification rt env (JStr ESCALATION) data = Normal n ->
     priority n = CRITICAL /\
     exists n',
       prioritize rt n = Normal n' /\
       priority n' = CRITICAL /\
       get_prop (metadata n') "prioritizationReason" = JStr "Critical priority escalation" /\
       get_prop (metadata n') "originalPriority" = JNum CRITICAL /\
       metadata n' <> metadata n).
Proof.
  assert (Hcrit : forall n, priority n = CRITICAL ->
            prioritize rt n = Normal (adjust critical_rule n) /\
            matching_rule (rules rt) n = Normal (Some critical_rule)).
  { intros n Hp. unfold prioritize, rules. cbn. rewrite Hp. cbn. auto. }
  assert (Hneq : forall n,
            get_prop (metadata n) "prioritizationReason" <> JStr "Critical priority escalation" ->
            metadata (adjust critical_rule n) <> metadata n).
  { intros n Hno Heq. apply Hno. rewrite <- Heq. apply adjust_reason. }
  split.
  - intros n Hp. destruct (Hcrit n Hp) as [Hpr Hsel].
    exists (adjust critical_rule n). split; [exact Hpr|]. split; [exact Hsel|].
    split; [cbn; rewrite Hp; reflexivity|].
    split; [apply adjust_reason|].
    split; [rewrite adjust_originalPriority, Hp; reflexivity|].
    apply Hneq.
  - intros env data n Hgen.
    unfold generateNotification, interp in Hgen. cbn in Hgen.
    destruct (deref data) as [d|e]; cbn in Hgen; [|discriminate].
    destruct (template rt (d "title")); cbn in Hgen; [|discriminate].
    destruct (template rt (d "description")); cbn in Hgen; [|discriminate].
    injection Hgen as <-.
    split; [reflexivity|].
    eexists. split; [apply Hcrit; reflexivity|].
    split; [reflexivity|].
    split; [apply adjust_reason|].
    split; [apply adjust_originalPriority|].
    apply Hneq. cbn. discriminate.
Qed.

(** ** Channel router *)

Lemma insert_by_priority_perm x l : Permutation (insert_by_priority x l) (x :: l).
Proof.
  induction l as [|y l IH]; cbn; [reflexivity|].
  destruct (priority x <? priority y); [|reflexivity].
  rewrite IH. apply perm_swap.
Qed.

Lemma sort_by_priority_perm l : Permutation (sort_by_priority l) l.
Proof.
  induction l as [|x l IH]; cbn; [reflexivity|].
  rewrite insert_by_priority_perm. by constructor.
Qed.

Lemma insert_by_priority_sorted x l :
  by_priority_desc l -> by_priority_desc (insert_by_priority x l).
Proof.
  unfold by_priority_desc.
  induction 1 as [|y l Hl IH Hy]; cbn.
  - repeat constructor.
  - destruct (priority x <? priority y) eqn:E.
    + apply Z.ltb_lt in E. constructor; [exact IH|].
      rewrite (insert_by_priority_perm x l).
      constructor; [lia|exact Hy].
    + apply Z.ltb_ge in E. constructor; [by constructor|].
      constructor; [lia|].
      eapply Forall_impl; [exact Hy|]. cbn. intros; lia.
Qed.

Lemma sort_by_priority_sorted l : by_priority_desc (sort_by_priority l).
Proof.
  induction l as [|x l IH]; cbn; [constructor|].
  by apply insert_by_priority_sorted.
Qed.

(** Stability: the notifications of any one priority come out in the order
    they went in. *)
Lemma insert_by_priority_stable p x l :
  filter (fun n => priority n = p) (insert_by_priority x l)
  = filter (fun n => priority n = p) (x :: l).
Proof.
  induction l as [|y l IH]; [reflexivity|].
  change (insert_by_priority x (y :: l))
    with (if priority x <? priority y then y :: insert_by_priority x l else x :: y :: l).
  destruct (priority x <? priority y) eqn:E; [|reflexivity].
  apply Z.ltb_lt in E.
  rewrite (filter_cons _ y (insert_by_priority x l)), IH.
  rewrite !filter_cons.
  repeat case_decide; try reflexivity; lia.
Qed.

Lemma sort_by_priority_stable p l :
  filter (fun n => priority n = p) (sort_by_priority l)
  = filter (fun n => priority n = p) l.
Proof.
  induction l as [|x l IH]; [reflexivity|].
  change (sort_by_priority (x :: l)) with (insert_by_priority x (sort_by_priority l)).
  rewrite insert_by_priority_stable, !filter_cons, IH. reflexivity.
Qed.

Lemma group_get_In grouped c sub :
  NoDup (map fst grouped) -> In (c, sub) grouped -> group_get grouped c = Some sub.
Proof.
  induction grouped as [|[c' ns] grouped IH]; cbn; [intros _ []|].
  intros Hnd [Heq|Hin].
  - injection Heq as -> ->. by rewrite String.eqb_refl.
  - apply NoDup_cons in Hnd as [Hc' Hnd].
    destruct (String.eqb_spec c' c) as [->|_]; [|by apply IH].
    exfalso. apply Hc'. apply list_elem_of_In, in_map_iff. by exists (c, sub).
Qed.

Lemma group_get_Some_In grouped c sub :
  group_get grouped c = Some sub -> In (c, sub) grouped.
Proof.
  induction grouped as [|[c' ns] grouped IH]; cbn; [discriminate|].
  destruct (String.eqb_spec c' c) as [->|_].
  - intros [= ->]. by left.
  - intros H. right. by apply IH.
Qed.

Lemma group_push_keys grouped c n c' :
  In c' (map fst (group_push grouped c n)) <-> c' = c \/ In c' (map fst grouped).
Proof.
  induction grouped as [|[c0 ns] grouped IH]; cbn; [intuition congruence|].
  destruct (String.eqb_spec c0 c) as [->|Hne]; cbn; [intuition congruence|].
  rewrite IH. tauto.
Qed.

Lemma group_push_well_grouped grouped c n :
  well_grouped grouped -> well_grouped (group_push grouped c n).
Proof.
  intros [Hnd Hne]. induction grouped as [|[c0 ns] grouped IH]; cbn.
  - split; [repeat constructor; by apply not_elem_of_nil|by repeat constructor].
  - cbn in Hnd. apply NoDup_cons in Hnd as [Hc0 Hnd].
    apply Forall_cons in Hne as [Hns Hne].
    destruct (String.eqb_spec c0 c) as [->|Hc]; cbn.
    + split; [by apply NoDup_cons|].
      constructor; [cbn; by destruct ns|exact Hne].
    + destruct (IH Hnd Hne) as [IH1 IH2]. split.
      * apply NoDup_cons. split; [|exact IH1].
        intros Hin%list_elem_of_In%group_push_keys. cbn in Hin.
        destruct Hin as [Heq|Hin]; [congruence|]. by apply Hc0, list_elem_of_In.
      * by constructor.
Qed.

Lemma members_group_push grouped c n c' :
  members (group_push grouped c n) c'
  = members grouped c' ++ (if String.eqb c c' then [n] else []).
Proof.
  unfold members. induction grouped as [|[c0 ns] grouped IH]; cbn.
  - by destruct (String.eqb c c').
  - destruct (String.eqb_spec c0 c) as [->|Hc]; cbn.
    + destruct (String.eqb c c'); cbn; [reflexivity|by rewrite app_nil_r].
    + destruct (String.eqb_spec c0 c') as [->|Hc']; cbn; [|exact IH].
      destruct (String.eqb_spec c c') as [->|_]; [done|by rewrite app_nil_r].
Qed.

Lemma members_push_channels cs n grouped c' :
  members (fold_left (fun g c => group_push g c n) cs grouped) c'
  = members grouped c'
    ++ map (fun _ => n) (filter (fun c => String.eqb c c' = true) cs).
Proof.
  revert grouped. induction cs as [|c cs IH]; intros grouped; cbn [fold_left].
  - cbn. by rewrite app_nil_r.
  - rewrite IH, members_group_push, filter_cons.
    destruct (String.eqb c c'); case_decide; try done; cbn.
    + by rewrite <- app_assoc.
    + by rewrite app_nil_r.
Qed.

Lemma well_grouped_push_channels cs n grouped :
  well_grouped grouped -> well_grouped (fold_left (fun g c => group_push g c n) cs grouped).
Proof.
  revert grouped. induction cs as [|c cs IH]; intros grouped H; cbn; [exact H|].
  by apply IH, group_push_well_grouped.
Qed.

Lemma members_fold_batch batch grouped c :
  members
    (fold_left
       (fun g n => fold_left (fun g c => group_push g c n) (channels n) g)
       batch grouped) c
  = members grouped c ++ sub_batch c batch.
Proof.
  revert grouped. induction batch as [|n batch IH]; intros grouped; cbn [fold_left].
  - cbn. by rewrite app_nil_r.
  - rewrite IH, members_push_channels. unfold sub_batch. cbn. by rewrite <- app_assoc.
Qed.

Lemma well_grouped_fold_batch batch grouped :
  well_grouped grouped ->
  well_grouped
    (fold_left
       (fun g n => fold_left (fun g c => group_push g c n) (channels n) g)
       batch grouped).
Proof.
  revert grouped. induction batch as [|n batch IH]; intros grouped H; cbn; [exact H|].
  by apply IH, well_grouped_push_channels.
Qed.

Lemma groupBatchByChannel_well_grouped batch : well_grouped (groupBatchByChannel batch).
Proof.
  apply well_grouped_fold_batch. split; constructor.
Qed.

Lemma groupBatchByChannel_members batch c :
  members (groupBatchByChannel batch) c = sub_batch c batch.
Proof. unfold groupBatchByChannel. by rewrite members_fold_batch. Qed.

(** Every group of the router is the sub-batch of its channel. *)
Lemma groupBatchByChannel_In batch c sub :
  In (c, sub) (groupBatchByChannel batch) -> sub = sub_batch c batch /\ sub <> [].
Proof.
  intros Hin. destruct (groupBatchByChannel_well_grouped batch) as [Hnd Hne].
  split.
  - rewrite <- groupBatchByChannel_members. unfold members.
    by rewrite (group_get_In _ _ _ Hnd Hin).
  - rewrite Forall_forall in Hne. exact (Hne (c, sub) (proj2 (list_elem_of_In _ _) Hin)).
Qed.

Lemma sub_batch_In c batch n :
  In n batch -> In c (channels n) -> In n (sub_batch c batch).
Proof.
  intros Hn Hc. unfold sub_batch. apply in_flat_map. exists n. split; [exact Hn|].
  apply in_map_iff. exists c. split; [reflexivity|].
  apply list_elem_of_In, list_elem_of_filter. split; [apply String.eqb_refl|].
  by apply list_elem_of_In.
Qed.

(** When a notification lists each of its channels once, the sub-batch of a
    channel is the batch filtered by that channel. *)
Lemma sub_batch_filter c batch :
  Forall (fun n => NoDup (channels n)) batch ->
  sub_batch c batch = filter (fun n => c ∈ channels n) batch.
Proof.
  assert (Hone : forall (n : Notification) cs, NoDup cs ->
            map (fun _ : string => n) (filter (fun c0 => String.eqb c0 c = true) cs)
            = if decide (c ∈ cs) then [n] else []).
  { intros n. induction 1 as [|c0 cs Hc0 _ IH]; [reflexivity|].
    rewrite filter_cons. destruct (String.eqb_spec c0 c) as [->|Hne].
    - rewrite decide_True by done. cbn. rewrite IH.
      rewrite decide_False by done. rewrite decide_True by apply list_elem_of_here.
      reflexivity.
    - rewrite decide_False by done. rewrite IH.
      destruct (decide (c ∈ cs)) as [Hin|Hin].
      + rewrite decide_True by (by apply list_elem_of_further). reflexivity.
      + rewrite decide_False; [reflexivity|].
        intros [->|?]%elem_of_cons; done. }
  induction 1 as [|n batch Hnd _ IH]; [reflexivity|].
  unfold sub_batch in *. cbn [flat_map]. rewrite IH, filter_cons, (Hone _ _ Hnd).
  by case_decide.
Qed.

Lemma same_engine_refl s : same_engine s s.
Proof. repeat split. Qed.

Lemma same_engine_trans s1 s2 s3 :
  same_engine s1 s2 -> same_engine s2 s3 -> same_engine s1 s3.
Proof. unfold same_engine. intuition congruence. Qed.

(** [processChannelBatch] never raises: a missing sender is a warning, a
    failing sender an error line. Whatever the sender does, the sorted
    sub-batch has been handed to it. *)
Lemma processChannelBatch_spec channel notifications s :
  exists s',
    processChannelBatch channel notifications s = (Normal tt, s') /\
    same_engine s s' /\
    sent s' = sent s ++ handed (registered s) channel notifications /\
    (registered s !! channel = None ->
     logged s' = logged s ++ [(warn, "Channel " +:+ channel +:+ " not found")]).
Proof.
  unfold processChannelBatch, sendBatch, handed. unfold_M.
  destruct (registered s !! channel) as [channelInstance|].
  - destruct (channelInstance (sort_by_priority notifications)) as [[]|e];
      (eexists; split; [reflexivity|]; split; [by repeat split|]; split;
       [reflexivity|discriminate]).
  - eexists. split; [reflexivity|]. split; [by repeat split|].
    split; [cbn; by rewrite app_nil_r|done].
Qed.

Lemma for_each_channels grouped s :
  exists s',
    for_each grouped
      (fun '(channel, notifications) => processChannelBatch channel notifications) s
      = (Normal tt, s') /\
    same_engine s s' /\
    sent s' = sent s ++ deliveries (registered s) grouped.
Proof.
  revert s. induction grouped as [|[c ns] grouped IH]; intros s; cbn [for_each].
  - exists s. split; [reflexivity|]. split; [apply same_engine_refl|].
    by rewrite app_nil_r.
  - destruct (processChannelBatch_spec c ns s) as (s1 & H1 & Hf1 & Hs1 & _).
    destruct (IH s1) as (s2 & H2 & Hf2 & Hs2).
    exists s2. unfold_M. rewrite H1, H2. split; [reflexivity|].
    split; [by eapply same_engine_trans|].
    rewrite Hs2, Hs1. destruct Hf1 as (_ & _ & _ & -> & _).
    cbn. by rewrite app_assoc.
Qed.

(** A flush of a non-empty queue. *)
Lemma processBatch_flush now s :
  notificationQueue s <> [] ->
  exists s',
    processBatch now s = (Normal tt, s') /\
    notificationQueue s' = drop batchSize (notificationQueue s) /\
    sent s' = sent s ++ deliveries (registered s)
                          (groupBatchByChannel (take batchSize (notificationQueue s))) /\
    rateLimiters s' = rateLimiters s /\
    registered s' = registered s /\
    emitted s' = emitted s /\
    (batchTimer s', timeouts s') =
      match drop batchSize (notificationQueue s) with
      | [] => (batchTimer s, timeouts s)
      | _ => (Some (now + batchTimeout), timeouts s ++ [now + batchTimeout])
      end.
Proof.
  intros Hq. unfold processBatch, scheduleBatchProcessing. unfold_M.
  destruct (notificationQueue s) as [|n q] eqn:Eq; [done|].
  cbn [length Nat.eqb].
  remember (take batchSize (n :: q)) as batch eqn:Ebatch.
  remember (drop batchSize (n :: q)) as rest eqn:Erest.
  clear Ebatch Erest. unfold modify. cbv beta iota zeta.
  match goal with
  | |- context [for_each ?g ?f ?s0] =>
      destruct (for_each_channels g s0) as (s2 & H2 & Hf2 & Hs2)
  end.
  rewrite H2. destruct Hf2 as (Hq2 & Ht2 & Hr2 & Hc2 & Hto2 & He2).
  cbn in Hq2, Ht2, Hr2, Hc2, Hto2, He2, Hs2.
  rewrite Hq2. destruct rest as [|r rest']; cbn.
  - eexists. split; [reflexivity|]. rewrite Hq2, Hs2, Hr2, Hc2, He2, Ht2, Hto2. repeat split.
  - eexists. split; [reflexivity|]. cbn. rewrite Hq2, Hs2, Hr2, Hc2, He2, Hto2. repeat split.
Qed.

(** C6. Fan-out and ordering. For every batch, a notification is put in the
    group of every channel it names; the group of a channel is the
    notifications naming it, in batch order (the batch filtered by the
    channel when no notification names a channel twice); and what the
    sender of a registered channel is handed is that group sorted by
    descending priority, notifications of equal priority staying in batch
    order. *)
Theorem channel_fan_out_sorted (batch : list Notification) :
  (forall n c, In n batch -> In c (channels n) ->
     exists sub, In (c, sub) (groupBatchByChannel batch) /\ In n sub) /\
  (forall c sub, In (c, sub) (groupBatchByChannel batch) -> sub = sub_batch c batch) /\
  (Forall (fun n => NoDup (channels n)) batch ->
     forall c, sub_batch c batch = filter (fun n => c ∈ channels n) batch) /\
  (forall c sub sender s,
     In (c, sub) (groupBatchByChannel batch) ->
     registered s !! c = Some sender ->
     exists s', processChannelBatch c sub s = (Normal tt, s') /\
                sent s' = sent s ++ [(c, sort_by_priority sub)]) /\
  (forall sub,
     Permutation (sort_by_priority sub) sub /\
     by_priority_desc (sort_by_priority sub) /\
     forall p, filter (fun n => priority n = p) (sort_by_priority sub)
               = filter (fun n => priority n = p) sub).
Proof.
  split.
  { intros n c Hn Hc. pose proof (sub_batch_In c batch n Hn Hc) as Hin.
    rewrite <- groupBatchByChannel_members in Hin. unfold members in Hin.
    destruct (group_get (groupBatchByChannel batch) c) as [sub|] eqn:Hget; [|destruct Hin].
    exists sub. split; [by apply group_get_Some_In|exact Hin]. }
  split; [intros c sub Hin; by apply groupBatchByChannel_In|].
  split; [intros Hnd c; by apply sub_batch_filter|].
  split.
  { intros c sub sender s _ Hreg.
    destruct (processChannelBatch_spec c sub s) as (s' & Hrun & _ & Hsent & _).
    exists s'. split; [exact Hrun|]. rewrite Hsent. unfold handed. by rewrite Hreg. }
  intros sub. split; [apply sort_by_priority_perm|].
  split; [apply sort_by_priority_sorted|]. intros p. apply sort_by_priority_stable.
Qed.

(** C7. Isolation. Whatever the registered senders do, raise or return,
    and whichever channels lack a sender, a flush returns normally, and the
    batches handed over are exactly the sorted groups of all the channels
    that have a sender: every such group is handed to its sender whatever
    happened with the other channels. A channel without sender gets a
    warning line. *)
Theorem channel_failures_isolated (now : Z) (s : ServiceState) :
  exists s',
    processBatch now s = (Normal tt, s') /\
    (notificationQueue s <> [] ->
     let grouped := groupBatchByChannel (take batchSize (notificationQueue s)) in
     sent s' = sent s ++ deliveries (registered s) grouped /\
     forall c sub sender,
       In (c, sub) grouped -> registered s !! c = Some sender ->
       In (c, sort_by_priority sub) (sent s')) /\
    (forall c sub s0,
       registered s0 !! c = None ->
       exists s1, processChannelBatch c sub s0 = (Normal tt, s1) /\
                  sent s1 = sent s0 /\
                  logged s1 = logged s0 ++ [(warn, "Channel " +:+ c +:+ " not found")]).
Proof.
  assert (Hskip : forall c sub s0,
       registered s0 !! c = None ->
       exists s1, processChannelBatch c sub s0 = (Normal tt, s1) /\
                  sent s1 = sent s0 /\
                  logged s1 = logged s0 ++ [(warn, "Channel " +:+ c +:+ " not found")]).
  { intros c sub s0 Hnone.
    destruct (processChannelBatch_spec c sub s0) as (s1 & Hrun & _ & Hsent & Hlog).
    exists s1. split; [exact Hrun|]. split; [|by apply Hlog].
    rewrite Hsent. unfold handed. rewrite Hnone. by rewrite app_nil_r. }
  destruct (notificationQueue s) as [|n q] eqn:Eq.
  - exists s. split; [|split; [done|exact Hskip]].
    unfold processBatch. unfold_M. by rewrite Eq.
  - destruct (processBatch_flush now s) as (s' & Hrun & _ & Hsent & _); [by rewrite Eq|].
    rewrite Eq in Hsent. exists s'. split; [exact Hrun|]. split; [|exact Hskip].
    intros _ grouped. split; [exact Hsent|].
    intros c sub sender Hin Hreg. rewrite Hsent. apply in_or_app. right.
    unfold deliveries. apply in_flat_map. exists (c, sub). split; [exact Hin|].
    unfold handed. cbn. rewrite Hreg. by left.
Qed.

(** C8. A flush cuts the [min(batchSize, length)] oldest notifications off
    the front of the queue, in order, and leaves the rest in order; a flush
    of an empty queue changes nothing at all. *)
Theorem flush_takes_oldest (now : Z) (s : ServiceState) :
  (notificationQueue s = [] -> processBatch now s = (Normal tt, s)) /\
  (notificationQueue s <> [] ->
   exists s' batch,
     processBatch now s = (Normal tt, s') /\
     notificationQueue s = batch ++ notificationQueue s' /\
     length batch = Nat.min batchSize (length (notificationQueue s)) /\
     batch = take batchSize (notificationQueue s) /\
     notificationQueue s' = drop batchSize (notificationQueue s) /\
     sent s' = sent s ++ deliveries (registered s) (groupBatchByChannel batch)).
Proof.
  split.
  - intros Hq. unfold processBatch. unfold_M. by rewrite Hq.
  - intros Hq. destruct (processBatch_flush now s Hq) as (s' & Hrun & Hq' & Hsent & _).
    exists s', (take batchSize (notificationQueue s)).
    split; [exact Hrun|]. rewrite Hq'.
    split; [by rewrite take_drop|]. split; [apply length_take|]. auto.
Qed.

(** ** Dispatch queue and batch timer *)

(** [publish] raises to its caller exactly when the event type does not
    convert to a string: the log line that opens the [try] raises, and the
    one in the [catch] raises again. Nothing has happened to the instance
    by then. *)
Lemma publish_raises rt env now eventType data s e :
  template rt eventType = Throw e ->
  publish rt env now eventType data s = (Throw e, s).
Proof. intros H. unfold publish. unfold_M. rewrite H. reflexivity. Qed.

Lemma publish_returns rt env now eventType data s :
  converts rt eventType ->
  fst (publish rt env now eventType data s) = Normal tt.
Proof.
  intros [shown Hshown].
  destruct (generateNotification rt env eventType data) as [n0|e] eqn:Hgen.
  - destruct (prioritize rt n0) as [n|e] eqn:Hprio.
    + destruct (publish_after_prioritize _ _ now _ _ _ _ s Hgen Hprio) as (? & _ & ->).
      cbn zeta. destruct (isRateLimited now n _) as [[|] r]; reflexivity.
    + unfold publish. unfold_M. rewrite Hshown, Hgen, Hprio. reflexivity.
  - unfold publish. unfold_M. rewrite Hshown, Hgen. reflexivity.
Qed.

(** The full effect of a [publish] call on the engine: it hands nothing to
    a sender and takes nothing off the queue. Either the event is dropped
    (the classifier or the prioritizer raised, or the gate rejected) and
    nothing changes but log lines and possibly the rate-limit table, or the
    prioritized notification of the event is appended and emitted, and a
    timeout is registered unless [batchTimer] holds one. *)
Lemma publish_outcome rt env now eventType data s :
  exists s',
    snd (publish rt env now eventType data s) = s' /\
    registered s' = registered s /\
    sent s' = sent s /\
    ((notificationQueue s' = notificationQueue s /\ emitted s' = emitted s /\
      batchTimer s' = batchTimer s /\ timeouts s' = timeouts s) \/
     (exists n0 n,
        generateNotification rt env eventType data = Normal n0 /\
        prioritize rt n0 = Normal n /\
        notificationQueue s' = notificationQueue s ++ [n] /\
        emitted s' = emitted s ++ [n] /\
        (batchTimer s', timeouts s') =
          match batchTimer s with
          | Some due => (Some due, timeouts s)
          | None => (Some (now + batchTimeout), timeouts s ++ [now + batchTimeout])
          end)).
Proof.
  destruct (template rt eventType) as [shown|e] eqn:Hshown.
  2: { rewrite (publish_raises _ _ _ _ _ _ _ Hshown). exists s. cbn. tauto. }
  destruct (generateNotification rt env eventType data) as [n0|e] eqn:Hgen.
  - destruct (prioritize rt n0) as [n|e] eqn:Hprio.
    + destruct (publish_after_prioritize _ _ now _ _ _ _ s Hgen Hprio) as (? & _ & ->).
      cbn zeta.
      destruct (isRateLimited now n _) as [[|] r]; cbn.
      * eexists. split; [reflexivity|]. cbn. tauto.
      * eexists. split; [reflexivity|]. cbn.
        destruct (batchTimer s) eqn:Hb; cbn;
          (split; [reflexivity|]; split; [reflexivity|]);
          right; exists n0, n; rewrite ?Hb; auto.
    + unfold publish. unfold_M. rewrite Hshown, Hgen, Hprio. cbn.
      eexists. split; [reflexivity|]. cbn. tauto.
  - unfold publish. unfold_M. rewrite Hshown, Hgen. cbn.
    eexists. split; [reflexivity|]. cbn. tauto.
Qed.

(** Any number of [publish] calls, whatever they return or raise. *)
Lemma publishes_outcome rt events s :
  Forall (fun ev => exists env now eventType data, ev = Publish env now eventType data)
    events ->
  exists admitted,
    sent (run rt events s) = sent s /\
    notificationQueue (run rt events s) = notificationQueue s ++ admitted /\
    (length admitted <= length events)%nat /\
    (admitted <> [] -> is_Some (batchTimer (run rt events s))) /\
    (forall due, batchTimer s = Some due ->
                 batchTimer (run rt events s) = Some due /\
                 timeouts (run rt events s) = timeouts s).
Proof.
  intros Hall. revert s.
  induction Hall as [|ev events (env & now & eventType & data & ->) _ IH]; intros s.
  - exists []. cbn. rewrite app_nil_r. repeat split; try done; lia.
  - change (run rt (Publish env now eventType data :: events) s)
      with (run rt events (snd (publish rt env now eventType data s))).
    destruct (publish_outcome rt env now eventType data s)
      as (s1 & -> & _ & Hsent & Hq).
    destruct (IH s1) as (admitted & Hsent2 & Hq2 & Hlen & Harmed & Hkeep).
    destruct Hq as [(Hq & _ & Ht & Hto)|(n0 & n & _ & _ & Hq & _ & Ht)].
    + exists admitted. rewrite Hsent2, Hq2, Hq, Hsent.
      split; [reflexivity|]. split; [reflexivity|].
      split; [cbn; lia|]. split; [exact Harmed|].
      intros due Hdue. rewrite <- Ht in Hdue. destruct (Hkeep due Hdue) as [Hb2 Hto2].
      split; congruence.
    + exists (n :: admitted). rewrite Hsent2, Hq2, Hq, Hsent, <- app_assoc.
      assert (Hs1 : exists due, batchTimer s1 = Some due).
      { destruct (batchTimer s); injection Ht as -> _; eauto. }
      destruct Hs1 as (due1 & Hdue1). destruct (Hkeep _ Hdue1) as [Hb2 Hto2].
      split; [reflexivity|]. split; [reflexivity|].
      split; [cbn; lia|]. split; [intros _; rewrite Hb2; eauto|].
      intros due Hdue. rewrite Hdue in Ht. injection Ht as Hb1 Hto1.
      split; congruence.
Qed.

Lemma batchTimerCallback_flush due now s :
  notificationQueue s <> [] ->
  exists s',
    batchTimerCallback due now s = (Normal tt, s') /\
    notificationQueue s' = drop batchSize (notificationQueue s) /\
    sent s' = sent s ++ deliveries (registered s)
                          (groupBatchByChannel (take batchSize (notificationQueue s))).
Proof.
  intros Hq. unfold batchTimerCallback. unfold_M. cbn [notificationQueue set_timeouts].
  destruct (groupBatchByChannel (take batchSize (notificationQueue s))) eqn:Hg.
  - match goal with |- context [processBatch now ?s0] =>
      destruct (processBatch_flush now s0 Hq) as (s' & Hrun & Hq' & Hsent & _) end.
    rewrite Hrun. eexists. split; [reflexivity|]. cbn in *. rewrite Hg in Hsent. auto.
  - match goal with |- context [processBatch now ?s0] =>
      destruct (processBatch_flush now s0 Hq) as (s' & Hrun & Hq' & Hsent & _) end.
    rewrite Hrun. eexists. split; [reflexivity|]. cbn in *. rewrite Hg in Hsent. auto.
Qed.

Lemma sweepCallback_flush now s :
  notificationQueue s <> [] ->
  exists s',
    sweepCallback now s = (Normal tt, s') /\
    notificationQueue s' = drop batchSize (notificationQueue s) /\
    sent s' = sent s ++ deliveries (registered s)
                          (groupBatchByChannel (take batchSize (notificationQueue s))).
Proof.
  intros Hq. unfold sweepCallback. unfold_M.
  destruct (processBatch_flush now s Hq) as (s' & Hrun & Hq' & Hsent & _).
  destruct (notificationQueue s) as [|n q] eqn:Eq; [done|]. cbn [length Nat.ltb Nat.leb].
  rewrite Hrun. eauto.
Qed.

(** *** A flush, turn by turn *)

Lemma processChannelBatch_begin_effect channel notifications rest s :
  let s' := fst (processChannelBatch_begin channel notifications rest s) in
  notificationQueue s' = notificationQueue s /\ emitted s' = emitted s /\
  rateLimiters s' = rateLimiters s /\ registered s' = registered s /\
  batchTimer s' = batchTimer s /\ timeouts s' = timeouts s.
Proof.
  unfold processChannelBatch_begin. destruct (registered s !! channel); cbn; tauto.
Qed.

(** What a flush does to the queue, the admissions and the timers when it
    goes on from the channels [rest]: nothing while a channel is left; at
    its end, a timeout is registered if the queue is not empty. *)
Lemma processBatch_next_effect now rest s :
  let s' := fst (processBatch_next now rest s) in
  notificationQueue s' = notificationQueue s /\ emitted s' = emitted s /\
  rateLimiters s' = rateLimiters s /\ registered s' = registered s /\
  match snd (processBatch_next now rest s) with
  | Some _ => batchTimer s' = batchTimer s /\ timeouts s' = timeouts s
  | None =>
      (batchTimer s', timeouts s') =
        match notificationQueue s with
        | [] => (batchTimer s, timeouts s)
        | _ => (Some (now + batchTimeout), timeouts s ++ [now + batchTimeout])
        end
  end.
Proof.
  unfold processBatch_next. destruct rest as [|[channel notifications] rest].
  - cbn [fst snd]. destruct (notificationQueue s) eqn:Hq; cbn; rewrite ?Hq; tauto.
  - pose proof (processChannelBatch_begin_effect channel notifications rest s) as H.
    destruct (processChannelBatch_begin channel notifications rest s). cbn in *. tauto.
Qed.

(** The start of a flush cuts the batch off the queue before anything
    else. *)
Lemma processBatch_begin_effect now s :
  let s' := fst (processBatch_begin now s) in
  notificationQueue s' = drop batchSize (notificationQueue s) /\
  emitted s' = emitted s /\ rateLimiters s' = rateLimiters s /\
  registered s' = registered s /\
  match snd (processBatch_begin now s) with
  | Some _ => batchTimer s' = batchTimer s /\ timeouts s' = timeouts s
  | None =>
      (batchTimer s', timeouts s') =
        match drop batchSize (notificationQueue s) with
        | [] => (batchTimer s, timeouts s)
        | _ => (Some (now + batchTimeout), timeouts s ++ [now + batchTimeout])
        end
  end.
Proof.
  unfold processBatch_begin.
  destruct (notificationQueue s) as [|n q] eqn:Hq; cbn [length Nat.eqb].
  - cbn. rewrite Hq. tauto.
  - match goal with |- context [processBatch_next now ?g ?s0] =>
      pose proof (processBatch_next_effect now g s0) as H;
      destruct (processBatch_next now g s0) as [s1 flight] end.
    cbn [fst snd notificationQueue emitted rateLimiters registered batchTimer timeouts
         add_logged set_queue] in *.
    exact H.
Qed.

Lemma resume_effect now flight s :
  let s' := fst (resume now flight s) in
  notificationQueue s' = notificationQueue s /\ emitted s' = emitted s /\
  rateLimiters s' = rateLimiters s /\ registered s' = registered s /\
  match snd (resume now flight s) with
  | Some _ => batchTimer s' = batchTimer s /\ timeouts s' = timeouts s
  | None =>
      (batchTimer s', timeouts s') =
        match notificationQueue s with
        | [] => (batchTimer s, timeouts s)
        | _ => (Some (now + batchTimeout), timeouts s ++ [now + batchTimeout])
        end
  end.
Proof.
  destruct flight as [channel notifications channelInstance rest|rest].
  - cbn. destruct (channelInstance notifications); cbn; tauto.
  - apply processBatch_next_effect.
Qed.

(** C3 fails as stated: after ten admitted [publish] calls the queue holds
    [batchSize] notifications, nothing has been handed to any sender, and
    the only thing pending is the timeout registered by the first call, due
    at 5000 ms. *)
Lemma ten_publishes_no_flush :
  let s := snd (publish_all exampleRuntime ten_calls initial) in
  length (notificationQueue s) = batchSize /\
  length (emitted s) = 10%nat /\
  sent s = [] /\
  batchTimer s = Some 5000 /\
  timeouts s = [5000].
Proof. vm_compute. repeat split. Qed.

(** C3, as the code has it. Reaching [batchSize] (10) queued notifications
    triggers nothing. A [publish] call hands no batch to a sender and takes
    nothing off the queue, however long the queue is: either it queues
    nothing and leaves the timer alone, or it appends its notification and,
    if [batchTimer] holds no timeout, registers one due [batchTimeout]
    (5000 ms) later and keeps it in [batchTimer]; a timeout that
    [batchTimer] holds is left as it is. So, over any sequence of [publish]
    calls, the admitted notifications are appended, none is sent, a timer is
    pending once one has been admitted, and a timer that was pending stays
    the pending one. The queue is flushed when the batch timer or the
    periodic sweep fires: the callback cuts at most [batchSize]
    notifications off the front of the queue at once and, when the flush has
    run to its end, has handed them to the senders. *)
Theorem publish_never_flushes rt :
  (batchSize = 10%nat /\ batchTimeout = 5000) /\
  (forall env now eventType data s,
     exists s',
       snd (publish rt env now eventType data s) = s' /\
       sent s' = sent s /\
       ((notificationQueue s' = notificationQueue s /\
         batchTimer s' = batchTimer s /\ timeouts s' = timeouts s) \/
        (exists n,
           notificationQueue s' = notificationQueue s ++ [n] /\
           (batchTimer s', timeouts s') =
             match batchTimer s with
             | Some due => (Some due, timeouts s)
             | None => (Some (now + batchTimeout), timeouts s ++ [now + batchTimeout])
             end))) /\
  (forall events s,
     Forall (fun ev => exists env now eventType data, ev = Publish env now eventType data)
       events ->
     exists admitted,
       sent (run rt events s) = sent s /\
       notificationQueue (run rt events s) = notificationQueue s ++ admitted /\
       (length admitted <= length events)%nat /\
       (admitted <> [] -> is_Some (batchTimer (run rt events s))) /\
       (forall due, batchTimer s = Some due ->
                    batchTimer (run rt events s) = Some due /\
                    timeouts (run rt events s) = timeouts s)) /\
  (forall due now l,
     notificationQueue (service (timeout_fires due now l))
       = drop batchSize (notificationQueue (service l)) /\
     batchTimer (service (timeout_fires due now l)) = None) /\
  (forall now l,
     notificationQueue (service (interval_ticks now l))
       = drop batchSize (notificationQueue (service l))) /\
  (forall due now s,
     notificationQueue s <> [] ->
     exists s',
       batchTimerCallback due now s = (Normal tt, s') /\
       notificationQueue s' = drop batchSize (notificationQueue s) /\
       sent s' = sent s ++ deliveries (registered s)
                   (groupBatchByChannel (take batchSize (notificationQueue s)))) /\
  (forall now s,
     notificationQueue s <> [] ->
     exists s',
       sweepCallback now s = (Normal tt, s') /\
       notificationQueue s' = drop batchSize (notificationQueue s) /\
       sent s' = sent s ++ deliveries (registered s)
                   (groupBatchByChannel (take batchSize (notificationQueue s)))).
Proof.
  split; [split; reflexivity|].
  split.
  { intros env now eventType data s.
    destruct (publish_outcome rt env now eventType data s)
      as (s' & Hrun & _ & Hsent & [(Hq & _ & Ht & Hto)|(n0 & n & _ & _ & Hq & _ & Ht)]);
      exists s'; (split; [exact Hrun|]); (split; [exact Hsent|]); [left|right]; eauto. }
  split; [apply publishes_outcome|].
  split.
  { intros due now l. unfold timeout_fires.
    match goal with |- context [processBatch_begin now ?s0] =>
      pose proof (processBatch_begin_effect now s0) as H;
      destruct (processBatch_begin now s0) as [s1 flight] end.
    cbn [fst snd service notificationQueue batchTimer set_timeouts set_batchTimer] in *.
    split; [apply H|reflexivity]. }
  split.
  { intros now l. unfold interval_ticks.
    destruct (notificationQueue (service l)) as [|n q] eqn:Hq; cbn [length Nat.ltb Nat.leb].
    - by rewrite Hq.
    - pose proof (processBatch_begin_effect now (service l)) as H.
      destruct (processBatch_begin now (service l)) as [s1 flight].
      cbn [fst snd service] in *. rewrite Hq in H. apply H. }
  split; [apply batchTimerCallback_flush|apply sweepCallback_flush].
Qed.

(** ** Evaluations on concrete inputs *)


(** The gate on [u1], admitted at time 0: a MEDIUM notification is rejected
    at 10 s and admitted at 31 s, and the entry of [u1] is then found with
    the time of the second admission. *)
Lemma rate_limit_gate_witness :
  findable (recipient medium_u1) /\
  ToBoolean (recipient medium_u1) = true /\
  fst (isRateLimited 10000 medium_u1 (rateLimiters after_u1)) = true /\
  fst (isRateLimited 31000 medium_u1 (rateLimiters after_u1)) = false /\
  map_get (snd (isRateLimited 31000 medium_u1 (rateLimiters after_u1)))
    (recipient medium_u1)
  = Some {| lastNotification := 31000; count := 2 |}.
Proof.
  split; [reflexivity|]. split; [reflexivity|]. split; [|split; [reflexivity|]].
  - apply (proj1 (proj2 (proj2 (rate_limit_gate exampleRuntime 10000 medium_u1 after_u1
                                   eq_refl)))
             eq_refl).
    exists {| lastNotification := 0; count := 1 |}. split; reflexivity.
  - exact (proj1 (proj2 (proj1 (proj2 (proj2 (proj2
             (rate_limit_gate exampleRuntime 31000 medium_u1 after_u1 eq_refl))))
             eq_refl eq_refl))).
Defined.


(** An URGENT deadline alert. *)
Lemma priority_monotone_witness :
  priority urgent_example <= CRITICAL /\
  ((exists n', prioritize exampleRuntime urgent_example = Normal n' /\
               priority urgent_example <= priority n' /\ priority n' <= CRITICAL) \/
   (exists e, prioritize exampleRuntime urgent_example = Throw e /\
              raises_in_rules exampleRuntime urgent_example e)).
Proof.
  split; [discriminate|]. apply (priority_monotone exampleRuntime urgent_example).
  discriminate.
Defined.

(** Two notifications that differ in id and recipient only. *)
Lemma rules_depend_on_witness :
  priority medium_u1 = priority medium_u2 /\
  type medium_u1 = type medium_u2 /\
  metadata medium_u1 = metadata medium_u2 /\
  field (data medium_u1) "estimatedValue" = field (data medium_u2) "estimatedValue" /\
  matching_rule (rules exampleRuntime) medium_u1
  = matching_rule (rules exampleRuntime) medium_u2 /\
  cmap (fun n' => (priority n', metadata n')) (prioritize exampleRuntime medium_u1) =
  cmap (fun n' => (priority n', metadata n')) (prioritize exampleRuntime medium_u2).
Proof.
  split; [reflexivity|]. split; [reflexivity|]. split; [reflexivity|].
  split; [reflexivity|].
  apply (rules_depend_on exampleRuntime medium_u1 medium_u2); reflexivity.
Defined.

(** A CRITICAL escalation. *)
Lemma critical_always_adjusted_witness :
  priority critical_example = CRITICAL /\
  exists n',
    prioritize exampleRuntime critical_example = Normal n' /\
    priority n' = CRITICAL /\
    get_prop (metadata n') "prioritizationReason" = JStr "Critical priority escalation" /\
    get_prop (metadata n') "originalPriority" = JNum CRITICAL /\
    metadata n' <> metadata critical_example.
Proof.
  split; [reflexivity|].
  destruct (proj1 (critical_always_adjusted exampleRuntime) critical_example eq_refl)
    as (n' & H1 & _ & H3 & H4 & H5 & H6).
  exists n'. repeat split; try assumption.
  apply H6. vm_compute. discriminate.
Defined.

(** The URGENT notification of a batch of two is in the email group. *)
Lemma channel_fan_out_sorted_witness :
  In urgent_example [low_example; urgent_example] /\
  In EMAIL (channels urgent_example) /\
  exists sub, In (EMAIL, sub) (groupBatchByChannel [low_example; urgent_example]) /\
              In urgent_example sub.
Proof.
  split; [right; left; reflexivity|]. split; [right; left; reflexivity|].
  apply (proj1 (channel_fan_out_sorted [low_example; urgent_example])).
  - right; left; reflexivity.
  - right; left; reflexivity.
Defined.

(** With a failing email sender and no Slack sender, the in-app batch is
    still handed over, in priority order. *)
Lemma channel_failures_isolated_witness :
  notificationQueue degraded <> [] /\
  registered degraded !! IN_APP = Some quiet_sender /\
  registered degraded !! EMAIL = Some failing_sender /\
  registered degraded !! SLACK = None /\
  exists s',
    processBatch 0 degraded = (Normal tt, s') /\
    In (IN_APP, [urgent_example; low_example]) (sent s').
Proof.
  split; [discriminate|]. split; [reflexivity|]. split; [reflexivity|].
  split; [reflexivity|].
  destruct (channel_failures_isolated 0 degraded) as (s' & Hrun & Hsent & _).
  exists s'. split; [exact Hrun|].
  apply (proj2 (Hsent ltac:(discriminate)) IN_APP [low_example; urgent_example] quiet_sender).
  - left. reflexivity.
  - reflexivity.
Defined.

(** A flush of the empty queue of a fresh instance, and of a queue of two. *)
Lemma flush_takes_oldest_witness :
  notificationQueue initial = [] /\
  processBatch 0 initial = (Normal tt, initial) /\
  notificationQueue degraded <> [] /\
  exists s' batch,
    processBatch 0 degraded = (Normal tt, s') /\
    notificationQueue degraded = batch ++ notificationQueue s' /\
    length batch = Nat.min batchSize (length (notificationQueue degraded)).
Proof.
  split; [reflexivity|].
  split; [apply (proj1 (flush_takes_oldest 0 initial)); reflexivity|].
  split; [discriminate|].
  destruct (proj2 (flush_takes_oldest 0 degraded) ltac:(discriminate))
    as (s' & batch & H1 & H2 & H3 & _).
  exists s', batch. repeat split; assumption.
Defined.

(** After the ten calls, the timer callback empties the queue. *)
Lemma publish_never_flushes_witness :
  notificationQueue (snd (publish_all exampleRuntime ten_calls initial)) <> [] /\
  exists s',
    batchTimerCallback 5000 5000 (snd (publish_all exampleRuntime ten_calls initial))
      = (Normal tt, s') /\
    notificationQueue s' = [].
Proof.
  split; [vm_compute; discriminate|].
  destruct (proj1 (proj2 (proj2 (proj2 (proj2 (proj2
              (publish_never_flushes exampleRuntime)))))) 5000 5000
              (snd (publish_all exampleRuntime ten_calls initial))
              ltac:(vm_compute; discriminate))
    as (s' & Hrun & Hq & _).
  exists s'. split; [exact Hrun|]. rewrite Hq. reflexivity.
Defined.

(** The rate-limiting scenario: of two MEDIUM notifications for one
    recipient 10 s apart the second is dropped; 31 s apart both are
    queued. *)
Example two_medium_notifications :
  map priority (notificationQueue (two_for_u1 10000)) = [MEDIUM] /\
  map snd (rateLimiters (two_for_u1 10000)) = [{| lastNotification := 0; count := 1 |}] /\
  map priority (notificationQueue (two_for_u1 31000)) = [MEDIUM; MEDIUM] /\
  map snd (rateLimiters (two_for_u1 31000)) = [{| lastNotification := 31000; count := 2 |}].
Proof. vm_compute. repeat split. Qed.

(** The end-to-end scenario: an escalation is classified CRITICAL for the
    four channels, admitted at once, and when the batch timer fires it is
    handed to the sender of each of the four channels; the queue is then
    empty and no timer is pending. *)
Example escalation_end_to_end :
  let s1 := snd (publish exampleRuntime (exampleEnv 0) 0 (JStr ESCALATION)
                   escalation_payload initial) in
  let s2 := snd (batchTimerCallback 5000 5000 s1) in
  map priority (notificationQueue s1) = [CRITICAL] /\
  map title (notificationQueue s1) = ["Escalation Required: undefined"] /\
  map channels (notificationQueue s1) = [[IN_APP; EMAIL; SLACK; TEAMS]] /\
  batchTimer s1 = Some 5000 /\
  sent s1 = [] /\
  map fst (sent s2) = [IN_APP; EMAIL; SLACK; TEAMS] /\
  map snd (sent s2) = replicate 4 (notificationQueue s1) /\
  notificationQueue s2 = [] /\
  batchTimer s2 = None /\
  timeouts s2 = [].
Proof. vm_compute. repeat split. Qed.

(** A [clientName] that is a number makes the last rule raise: the event is
    classified, the prioritizer raises, and [publish] logs the failure and
    queues nothing. *)
Example numeric_clientName_dropped :
  cmap priority
    (generateNotification exampleRuntime (exampleEnv 0) (JStr PROPOSAL_CREATED)
       numeric_client)
    = Normal MEDIUM /\
  cbind (generateNotification exampleRuntime (exampleEnv 0) (JStr PROPOSAL_CREATED)
           numeric_client)
        (prioritize exampleRuntime)
    = Throw (TypeError "includes is not a function") /\
  notificationQueue
    (snd (publish exampleRuntime (exampleEnv 0) 0 (JStr PROPOSAL_CREATED)
            numeric_client initial))
    = [].
Proof. vm_compute. repeat split. Qed.

(** * Further properties of the engine *)

Lemma processBatch_empty now s :
  notificationQueue s = [] -> processBatch now s = (Normal tt, s).
Proof. intros Hq. unfold processBatch. unfold_M. by rewrite Hq. Qed.

(** The effect of a flush on the queue, the admissions and the timers. *)
Lemma processBatch_timers now s :
  exists s',
    processBatch now s = (Normal tt, s') /\
    notificationQueue s' = drop batchSize (notificationQueue s) /\
    emitted s' = emitted s /\
    rateLimiters s' = rateLimiters s /\
    registered s' = registered s /\
    (batchTimer s', timeouts s') =
      match drop batchSize (notificationQueue s) with
      | [] => (batchTimer s, timeouts s)
      | _ => (Some (now + batchTimeout), timeouts s ++ [now + batchTimeout])
      end.
Proof.
  destruct (notificationQueue s) as [|n q] eqn:Eq.
  - exists s. rewrite (processBatch_empty now s Eq), Eq. repeat split.
  - destruct (processBatch_flush now s) as (s' & Hrun & Hq & _ & Hr & Hreg & He & Ht);
      [by rewrite Eq|].
    rewrite Eq in Hq, Ht. exists s'. repeat split; assumption.
Qed.

Lemma batchTimerCallback_effect due now s :
  exists s',
    batchTimerCallback due now s = (Normal tt, s') /\
    notificationQueue s' = drop batchSize (notificationQueue s) /\
    emitted s' = emitted s /\
    rateLimiters s' = rateLimiters s /\
    registered s' = registered s.
Proof.
  unfold batchTimerCallback. unfold_M. cbn [notificationQueue set_timeouts].
  destruct (groupBatchByChannel (take batchSize (notificationQueue s))) eqn:Hg.
  - match goal with |- context [processBatch now ?s0] =>
      destruct (processBatch_timers now s0) as (s1 & Hrun & Hq & He & Hr & Hreg & Ht) end.
    rewrite Hrun. eexists. split; [reflexivity|].
    cbn [notificationQueue emitted rateLimiters registered batchTimer timeouts
         set_timeouts set_batchTimer] in *.
    repeat split; assumption.
  - match goal with |- context [processBatch now ?s0] =>
      destruct (processBatch_timers now s0) as (s1 & Hrun & Hq & He & Hr & Hreg & Ht) end.
    rewrite Hrun. eexists. split; [reflexivity|].
    cbn [notificationQueue emitted rateLimiters registered batchTimer timeouts
         set_timeouts set_batchTimer] in *.
    repeat split; assumption.
Qed.

Lemma sweepCallback_effect now s :
  exists s',
    sweepCallback now s = (Normal tt, s') /\
    notificationQueue s' = drop batchSize (notificationQueue s) /\
    emitted s' = emitted s /\
    rateLimiters s' = rateLimiters s /\
    registered s' = registered s.
Proof.
  unfold sweepCallback. unfold_M.
  destruct (notificationQueue s) as [|n q] eqn:Eq; cbn [length Nat.ltb Nat.leb].
  - exists s. rewrite Eq. repeat split.
  - destruct (processBatch_timers now s) as (s1 & Hrun & Hq & He & Hr & Hreg & Ht).
    rewrite Hrun. exists s1. rewrite Eq in Hq. repeat split; assumption.
Qed.

(** *** A flush run to its end is the flush taken turn by turn *)

Lemma complete_none fuel now s : complete fuel now None s = s.
Proof. destruct fuel; reflexivity. Qed.

(** [processChannelBatch] run to its end. *)
Lemma processChannelBatch_settled channel notifications s :
  processChannelBatch channel notifications s =
    (Normal tt,
     match registered s !! channel with
     | None => add_logged warn ("Channel " +:+ channel +:+ " not found") s
     | Some channelInstance =>
         let sorted := sort_by_priority notifications in
         match channelInstance sorted with
         | Normal _ =>
             add_logged info ("Sent " +:+ pretty (length sorted)
                                +:+ " notifications via " +:+ channel)
               (add_sent channel sorted s)
         | Throw _ =>
             add_logged error ("Error processing batch for channel " +:+ channel +:+ ":")
               (add_sent channel sorted s)
         end
     end).
Proof.
  unfold processChannelBatch, sendBatch. unfold_M.
  destruct (registered s !! channel) as [channelInstance|]; [|reflexivity].
  cbv zeta. destruct (channelInstance (sort_by_priority notifications)); reflexivity.
Qed.

(** Serving the channels that are left, one after the other, is what the
    suspended flush does when nothing comes in between. *)
Lemma for_each_complete now grouped :
  forall s fuel,
    (2 * length grouped + 1 <= fuel)%nat ->
    exists s1,
      for_each grouped
        (fun '(channel, notifications) => processChannelBatch channel notifications) s
      = (Normal tt, s1) /\
      complete fuel now (Some (Between grouped)) s = fst (processBatch_next now [] s1).
Proof.
  induction grouped as [|[channel notifications] grouped IH]; intros s fuel Hfuel.
  - exists s. split; [reflexivity|].
    destruct fuel as [|fuel]; [cbn in Hfuel; lia|].
    cbn [complete resume processBatch_next]. apply complete_none.
  - cbn [length] in Hfuel.
    destruct fuel as [|fuel]; [lia|].
    cbn [for_each]. unfold mbind, M_bind, bind. cbv beta iota.
    rewrite processChannelBatch_settled.
    cbn [complete resume processBatch_next]. unfold processChannelBatch_begin.
    destruct (registered s !! channel) as [channelInstance|].
    + destruct fuel as [|fuel]; [lia|].
      cbn [complete resume]. cbv zeta.
      destruct (channelInstance (sort_by_priority notifications));
        apply IH; lia.
    + apply IH; lia.
Qed.

(** [processBatch], as one step, is the start of the flush followed by all
    its continuations. *)
Lemma processBatch_complete now s :
  snd (processBatch now s) =
    let '(s1, flight) := processBatch_begin now s in
    complete (awaits flight) now flight s1.
Proof.
  unfold processBatch, processBatch_begin. unfold_M.
  destruct (length (notificationQueue s) =? 0)%nat; [reflexivity|].
  cbv beta iota zeta.
  set (s0 := add_logged info _ (set_queue _ s)).
  set (grouped := groupBatchByChannel _).
  destruct (for_each_complete now grouped s0 (S (awaits (snd (processBatch_next now grouped s0)))))
    as (s1 & Hrun & Hend).
  { destruct grouped as [|[channel notifications] grouped]; [cbn; lia|].
    cbn [processBatch_next]. unfold processChannelBatch_begin.
    destruct (registered s0 !! channel); cbn [snd awaits length]; lia. }
  change (add_logged info _ (set_queue _ s)) with s0.
  rewrite Hrun.
  cbn [complete resume] in Hend.
  destruct (processBatch_next now grouped s0) as [s' flight] eqn:Hnext.
  cbn [snd] in Hend. rewrite Hend.
  unfold processBatch_next, scheduleBatchProcessing. unfold_M.
  destruct (0 <? length (notificationQueue s1))%nat; reflexivity.
Qed.

(** Before its first [await] a flush with channels to serve does not touch
    [batchTimer]. *)
Lemma processBatch_begin_batchTimer t now s :
  groupBatchByChannel (take batchSize (notificationQueue s)) <> [] ->
  processBatch_begin now (set_batchTimer t s) =
    (set_batchTimer t (fst (processBatch_begin now s)), snd (processBatch_begin now s)).
Proof.
  intros Hg. unfold processBatch_begin. cbn [notificationQueue set_batchTimer].
  destruct (length (notificationQueue s) =? 0)%nat; [reflexivity|].
  destruct (groupBatchByChannel (take batchSize (notificationQueue s)))
    as [|[channel notifications] grouped]; [done|].
  unfold processBatch_next, processChannelBatch_begin.
  cbn [registered add_logged set_queue set_batchTimer].
  destruct (registered s !! channel); reflexivity.
Qed.

(** The callback of the batch timer with its flush run to its end. *)
Lemma batchTimerCallback_complete due now s :
  snd (batchTimerCallback due now s) =
    let l := timeout_fires due now {| service := s; flights := [] |} in
    complete (awaits (head (flights l))) now (head (flights l)) (service l).
Proof.
  unfold batchTimerCallback, timeout_fires. unfold_M.
  cbn [service flights notificationQueue set_timeouts].
  set (s0 := set_timeouts (remove_first due (timeouts s)) s).
  destruct (groupBatchByChannel (take batchSize (notificationQueue s))) as [|g grouped] eqn:Hg.
  - pose proof (processBatch_complete now s0) as Hc.
    destruct (processBatch_timers now s0) as (s1 & Hrun & _).
    rewrite Hrun in Hc |- *. cbn [snd] in Hc.
    assert (Hnone : snd (processBatch_begin now s0) = None).
    { unfold processBatch_begin.
      destruct (length (notificationQueue s0) =? 0)%nat; [reflexivity|].
      change (notificationQueue s0) with (notificationQueue s). rewrite Hg. reflexivity. }
    destruct (processBatch_begin now s0) as [s1' flight]. cbn [snd] in Hnone. subst flight.
    cbn in Hc. subst s1'. reflexivity.
  - pose proof (processBatch_complete now (set_batchTimer None s0)) as Hc.
    rewrite processBatch_begin_batchTimer in Hc
      by (change (notificationQueue s0) with (notificationQueue s); by rewrite Hg).
    destruct (processBatch now (set_batchTimer None s0)) as [r s1]. cbn [snd] in Hc.
    destruct (processBatch_begin now s0) as [s1' [flight|]]; cbn in Hc |- *; exact Hc.
Qed.

(** The callback of the interval with its flush run to its end. *)
Lemma sweepCallback_complete now s :
  snd (sweepCallback now s) =
    let l := interval_ticks now {| service := s; flights := [] |} in
    complete (awaits (head (flights l))) now (head (flights l)) (service l).
Proof.
  unfold sweepCallback, interval_ticks. unfold_M. cbn [service flights].
  destruct (0 <? length (notificationQueue s))%nat; [|reflexivity].
  rewrite processBatch_complete.
  destruct (processBatch_begin now s) as [s1 [flight|]]; reflexivity.
Qed.

(** A suspended flush that runs to its end leaves the queue as it is and,
    if the queue is not empty, registers a timeout and keeps it in
    [batchTimer]. *)
Lemma complete_arms now flight s :
  notificationQueue (complete (awaits (Some flight)) now (Some flight) s)
  = notificationQueue s /\
  (notificationQueue s <> [] ->
   batchTimer (complete (awaits (Some flight)) now (Some flight) s)
   = Some (now + batchTimeout) /\
   timeouts (complete (awaits (Some flight)) now (Some flight) s)
   = timeouts s ++ [now + batchTimeout]).
Proof.
  assert (Hbetween : forall rest s0 fuel,
            (2 * length rest + 1 <= fuel)%nat ->
            notificationQueue (complete fuel now (Some (Between rest)) s0)
            = notificationQueue s0 /\
            (notificationQueue s0 <> [] ->
             batchTimer (complete fuel now (Some (Between rest)) s0)
             = Some (now + batchTimeout) /\
             timeouts (complete fuel now (Some (Between rest)) s0)
             = timeouts s0 ++ [now + batchTimeout])).
  { intros rest s0 fuel Hfuel.
    destruct (for_each_complete now rest s0 fuel Hfuel) as (s1 & Hrun & ->).
    destruct (for_each_channels rest s0) as (s1' & Hrun' & Hsame & _).
    rewrite Hrun in Hrun'. injection Hrun' as <-.
    destruct Hsame as (Hq & _ & _ & _ & Hto & _).
    cbn [processBatch_next fst]. unfold scheduleBatchProcessing. unfold_M.
    cbn [snd]. rewrite Hq.
    destruct (notificationQueue s0) as [|n q]; cbn [length Nat.ltb Nat.leb].
    - split; [exact Hq|done].
    - cbn. rewrite Hq, Hto. split; [reflexivity|]. intros _. split; reflexivity. }
  destruct flight as [channel notifications channelInstance rest|rest].
  - cbn [awaits].
    replace (2 * length rest + 3)%nat with (S (2 * length rest + 2)) by lia.
    cbn [complete resume].
    match goal with |- context [complete _ now _ ?s0] =>
      destruct (Hbetween rest s0 (2 * length rest + 2)%nat ltac:(lia)) as [Hq Harm] end.
    destruct (channelInstance notifications); cbn in Hq, Harm; split; assumption.
  - apply Hbetween. cbn [awaits]. lia.
Qed.

(** ** Event traces *)

(** X1. Whatever happens to an instance, in whatever order (publish calls,
    timeouts firing, sweep ticks, suspended flushes going on), the handle
    held in [batchTimer] is always that of a pending timeout, and a
    notification is never left in the queue with nothing to flush it: a
    timeout is pending, or a flush is suspended at an [await]; and a
    suspended flush that runs to its end, with the queue not empty,
    registers a timeout due [batchTimeout] later and keeps it in
    [batchTimer]. While a flush is suspended, and for good if its sender
    never settles, the rest of the queue can be without a pending
    timeout. *)
Theorem queue_always_covered rt :
  (forall turns l, queue_is_covered l -> queue_is_covered (play rt turns l)) /\
  (forall now flight s,
     let s' := complete (awaits (Some flight)) now (Some flight) s in
     notificationQueue s' = notificationQueue s /\
     (notificationQueue s <> [] ->
      batchTimer s' = Some (now + batchTimeout) /\
      timeouts s' = timeouts s ++ [now + batchTimeout])).
Proof.
  split; [|intros now flight s; apply complete_arms].
  intros turns.
  induction turns as [|t turns IH]; intros l Hl; [exact Hl|].
  cbn [play fold_left]. apply IH. clear IH turns.
  destruct Hl as [Hhandle Hqueue].
  assert (Harmed : forall s' : ServiceState, forall fl now,
            (batchTimer s', timeouts s') =
              match notificationQueue s' with
              | [] => (batchTimer (service l), timeouts (service l))
              | _ => (Some (now + batchTimeout),
                      timeouts (service l) ++ [now + batchTimeout])
              end ->
            queue_is_covered {| service := s'; flights := fl |}).
  { intros s' fl now Ht. unfold queue_is_covered. cbn [service flights].
    destruct (notificationQueue s'); injection Ht as -> ->.
    - split; [exact Hhandle|]. intros H. by destruct H.
    - split.
      + intros due [= <-]. apply in_or_app. right. by left.
      + intros _. left. by destruct (timeouts (service l)). }
  destruct t as [env now eventType data|due now|now|i now]; cbn [turn].
  - destruct (publish_outcome rt env now eventType data (service l))
      as (s' & -> & _ & _ & [(Hq & _ & Ht & Hto)|(n0 & n & _ & _ & Hq & _ & Ht)]);
      unfold queue_is_covered; cbn [service flights].
    + rewrite Hq, Ht, Hto. by split.
    + rewrite Hq. destruct (batchTimer (service l)) as [due|] eqn:Hb;
        injection Ht as -> ->.
      * split; [exact Hhandle|]. intros _. left. intros Hnil.
        specialize (Hhandle due eq_refl). rewrite Hnil in Hhandle. destruct Hhandle.
      * split.
        -- intros due [= <-]. apply in_or_app. right. by left.
        -- intros _. left. by destruct (timeouts (service l)).
  - destruct (pending due (service l)); [|by split].
    unfold timeout_fires.
    match goal with |- context [processBatch_begin now ?s0] =>
      pose proof (processBatch_begin_effect now s0) as (Hq & _ & _ & _ & Ht);
      destruct (processBatch_begin now s0) as [s1 flight] end.
    cbn [fst snd notificationQueue batchTimer timeouts set_timeouts] in Hq, Ht.
    unfold queue_is_covered. cbn [service flights batchTimer set_batchTimer
                                    notificationQueue timeouts].
    split; [discriminate|]. intros Hne.
    destruct flight as [flight|].
    + right. by destruct (flights l).
    + left. rewrite Hq in Hne.
      destruct (drop batchSize (notificationQueue (service l))); [done|].
      injection Ht as _ ->. by destruct (remove_first due (timeouts (service l))).
  - unfold interval_ticks.
    destruct (0 <? length (notificationQueue (service l)))%nat; [|by split].
    pose proof (processBatch_begin_effect now (service l)) as (Hq & _ & _ & _ & Ht).
    destruct (processBatch_begin now (service l)) as [s1 flight].
    cbn [fst snd] in Hq, Ht.
    destruct flight as [flight|].
    + destruct Ht as [Hb Hto]. unfold queue_is_covered. cbn [service flights].
      rewrite Hb, Hto. split; [exact Hhandle|]. intros _. right. by destruct (flights l).
    + apply (Harmed s1 _ now). by rewrite Hq.
  - unfold flush_resumes.
    destruct (flights l !! i) as [flight|] eqn:Hi; [|by split].
    pose proof (resume_effect now flight (service l)) as (Hq & _ & _ & _ & Ht).
    destruct (resume now flight (service l)) as [s1 flight'].
    cbn [fst snd] in Hq, Ht.
    destruct flight' as [flight'|].
    + destruct Ht as [Hb Hto]. unfold queue_is_covered. cbn [service flights].
      rewrite Hb, Hto. split; [exact Hhandle|]. intros _. right. intros Hnil.
      apply (f_equal length) in Hnil. rewrite length_insert in Hnil.
      apply lookup_lt_Some in Hi. cbn in Hnil. lia.
    + apply (Harmed s1 _ now). by rewrite Hq.
Qed.

Lemma queue_always_covered_witness :
  queue_is_covered {| service := initial; flights := [] |} /\
  queue_is_covered
    (play exampleRuntime
       [Called (exampleEnv 0) 0 (JStr ESCALATION) escalation_payload;
        Ticked 100; Called (exampleEnv 200) 200 (JStr PROPOSAL_CREATED) deal_for_u1;
        Fired 5000 5000; Resumed 0 5100]
       {| service := initial; flights := [] |}).
Proof.
  assert (H : queue_is_covered {| service := initial; flights := [] |})
    by (split; [discriminate|intros H; by destruct H]).
  split; [exact H|]. apply (proj1 (queue_always_covered exampleRuntime)). exact H.
Defined.

(** Between the callback of the batch timer and the end of the flush it
    starts, what is left in the queue has no timeout pending: eleven
    notifications are queued, the timer fires and cuts ten, and until the
    senders have settled the eleventh waits with [batchTimer] empty and no
    timeout registered. *)
Example rest_waits_for_the_flush_to_end :
  let queued :=
    play exampleRuntime
      (map (fun i => Called (exampleEnv i) i (JStr "custom") (obj [])) (seqZ 0 11))
      {| service := initial; flights := [] |} in
  let fired := play exampleRuntime [Fired 5000 5000] queued in
  let ended := play exampleRuntime (replicate 2 (Resumed 0 5200)) fired in
  length (notificationQueue (service queued)) = 11%nat /\
  timeouts (service queued) = [5000] /\
  length (notificationQueue (service fired)) = 1%nat /\
  batchTimer (service fired) = None /\
  timeouts (service fired) = [] /\
  length (flights fired) = 1%nat /\
  flights ended = [] /\
  batchTimer (service ended) = Some 10200 /\
  timeouts (service ended) = [10200].
Proof. vm_compute. repeat split. Qed.

Lemma queue_is_backlog_step rt ev s :
  queue_is_backlog s -> queue_is_backlog (step rt ev s).
Proof.
  intros (flushed & Hsplit).
  assert (Hdrop : forall s', notificationQueue s' = drop batchSize (notificationQueue s) ->
                             emitted s' = emitted s -> queue_is_backlog s').
  { intros s' Hq He. exists (flushed ++ take batchSize (notificationQueue s)).
    by rewrite He, Hq, Hsplit, <- app_assoc, take_drop. }
  destruct ev as [env now eventType data|due now|now]; cbn [step].
  - destruct (publish_outcome rt env now eventType data s)
      as (s' & -> & _ & _ & [(Hq & He & _)|(n0 & n & _ & _ & Hq & He & _)]).
    + exists flushed. by rewrite Hq, He.
    + exists flushed. by rewrite Hq, He, Hsplit, app_assoc.
  - destruct (pending due s); [|by exists flushed].
    destruct (batchTimerCallback_effect due now s) as (s' & -> & Hq & He & _). by apply Hdrop.
  - destruct (sweepCallback_effect now s) as (s' & -> & Hq & He & _). by apply Hdrop.
Qed.

(** X2. The queue is first in, first out over every history: at any moment
    it is the tail end of the sequence of admitted notifications, in
    admission order; publishing appends to both, flushing only cuts the
    front of the queue. Nothing is reordered, duplicated or inserted. *)
Theorem queue_is_fifo rt (events : list Event) (s : ServiceState) :
  queue_is_backlog s -> queue_is_backlog (run rt events s).
Proof.
  revert s. induction events as [|ev events IH]; intros s Hs; [exact Hs|].
  cbn [run fold_left]. apply IH. by apply queue_is_backlog_step.
Qed.

Lemma queue_is_fifo_witness :
  queue_is_backlog initial /\
  queue_is_backlog
    (run exampleRuntime
       [Publish (exampleEnv 0) 0 (JStr ESCALATION) escalation_payload;
        Timeout 5000 5000;
        Publish (exampleEnv 6000) 6000 (JStr PROPOSAL_CREATED) deal_for_u1] initial).
Proof.
  assert (H : queue_is_backlog initial) by (by exists []).
  split; [exact H|]. apply queue_is_fifo. exact H.
Defined.

(** X3. [publish] raises to its caller only when the event type does not
    convert to a string: the log line that opens the [try] raises, the one
    in the [catch] raises again, and the instance is left untouched. For
    every other event type, every string among them, the call returns
    normally; when the classifier or the prioritizer raises, the event is
    dropped and only two log lines are added, the queue, the rate-limit
    table, the timers, the emitted events and the sent batches being as
    before. *)
Theorem publish_swallows_failures rt env now eventType data (s : ServiceState) :
  (forall e, template rt eventType = Throw e ->
     publish rt env now eventType data s = (Throw e, s)) /\
  (forall shown, template rt eventType = Normal shown ->
     (exists s', publish rt env now eventType data s = (Normal tt, s')) /\
     ((exists e, cbind (generateNotification rt env eventType data) (prioritize rt)
                 = Throw e) ->
      publish rt env now eventType data s =
        (Normal tt,
         add_logged error ("Failed to publish event " +:+ shown +:+ ":")
           (add_logged info ("Publishing event: " +:+ shown) s)))) /\
  (forall e s', publish rt env now eventType data s = (Throw e, s') ->
     template rt eventType = Throw e).
Proof.
  split; [intros e; apply publish_raises|]. split.
  - intros shown Hshown. split.
    + pose proof (publish_returns rt env now eventType data s (ex_intro _ shown Hshown)) as H.
      destruct (publish rt env now eventType data s) as [r s']. cbn in H. subst r. eauto.
    + intros (e & He). unfold publish. unfold_M. rewrite Hshown.
      destruct (generateNotification rt env eventType data) as [n0|e0]; cbn in *.
      * rewrite He. reflexivity.
      * reflexivity.
  - intros e s' Hp. destruct (template rt eventType) as [shown|e'] eqn:Hshown.
    + pose proof (publish_returns rt env now eventType data s
                    (ex_intro _ shown Hshown)) as H.
      rewrite Hp in H. discriminate.
    + rewrite (publish_raises _ _ _ _ _ _ _ Hshown) in Hp. congruence.
Qed.

Lemma publish_swallows_failures_witness :
  template exampleRuntime (JStr PROPOSAL_CREATED) = Normal PROPOSAL_CREATED /\
  (exists e, cbind (generateNotification exampleRuntime (exampleEnv 0)
                      (JStr PROPOSAL_CREATED) JNull)
                   (prioritize exampleRuntime) = Throw e) /\
  notificationQueue
    (snd (publish exampleRuntime (exampleEnv 0) 0 (JStr PROPOSAL_CREATED) JNull initial))
  = [] /\
  publish exampleRuntime (exampleEnv 0) 0 (obj [("toString", JNull)]) JNull initial
  = (Throw (TypeError "Cannot convert object to primitive value"), initial).
Proof.
  assert (H : exists e, cbind (generateNotification exampleRuntime (exampleEnv 0)
                                 (JStr PROPOSAL_CREATED) JNull)
                              (prioritize exampleRuntime) = Throw e)
    by (eexists; reflexivity).
  split; [reflexivity|]. split; [exact H|]. split.
  - rewrite (proj2 (proj1 (proj2 (publish_swallows_failures exampleRuntime (exampleEnv 0) 0
                      (JStr PROPOSAL_CREATED) JNull initial)) PROPOSAL_CREATED eq_refl) H).
    reflexivity.
  - apply (proj1 (publish_swallows_failures exampleRuntime (exampleEnv 0) 0
                    (obj [("toString", JNull)]) JNull initial)).
    reflexivity.
Defined.

(** ** What the classifier and the prioritizer hand to the queue *)


Lemma generateNotification_well_formed rt env eventType data n :
  generateNotification rt env eventType data = Normal n -> well_formed n.
Proof.
  intros H. classify H; unfold well_formed; cbn;
    (split; [split; discriminate|]; split; [eauto|]; split;
     [apply (bool_decide_unpack _); vm_compute; exact I|];
     split; [repeat constructor; cbn; tauto|reflexivity]).
Qed.

Lemma prioritize_keeps rt n p :
  prioritize rt n = Normal p ->
  channels p = channels n /\ userId p = userId n /\ data p = data n /\
  type p = type n /\ id p = id n /\
  (priority n <= CRITICAL -> priority n <= priority p <= CRITICAL).
Proof.
  intros Hp. destruct (prioritize_outcome rt n) as [(selected & _ & H)|(e & H & _)];
    [|congruence].
  destruct selected as [rule|].
  - destruct H as [Hin H]. rewrite H in Hp. injection Hp as <-.
    pose proof (rules_adjustment_nonneg rt rule Hin).
    repeat split; cbn; unfold CRITICAL in *; lia.
  - rewrite H in Hp. injection Hp as <-. repeat split; lia.
Qed.

(** X4. Every notification that the classifier builds and the prioritizer
    lets through, and hence every notification that [publish] can queue,
    has a priority on the scale 1..5, names the in-app channel first, names
    each channel once and only channels that have a sender on a fresh
    instance, and carries no [userId] of its own. *)
Theorem queued_notifications_well_formed rt env eventType data n p :
  generateNotification rt env eventType data = Normal n ->
  prioritize rt n = Normal p ->
  well_formed n /\ well_formed p /\
  Forall (fun c => is_Some (registered initial !! c)) (channels p).
Proof.
  intros Hgen Hprio. pose proof (generateNotification_well_formed _ _ _ _ _ Hgen) as Hn.
  destruct (prioritize_keeps _ _ _ Hprio) as (Hc & Hu & _ & _ & _ & Hpr).
  assert (Hp : well_formed p).
  { destruct Hn as (Hscale & Hfirst & Hnd & Hfour & Hid).
    unfold well_formed. rewrite Hc, Hu. repeat split; try assumption;
      destruct (Hpr (proj2 Hscale)); lia. }
  split; [exact Hn|]. split; [exact Hp|].
  destruct Hp as (_ & _ & _ & Hfour & _).
  eapply Forall_impl; [exact Hfour|]. cbn.
  intros c [<-|[<-|[<-|[<-|[]]]]]; vm_compute; eauto.
Qed.

Lemma queued_notifications_well_formed_witness :
  exists n p,
    generateNotification exampleRuntime (exampleEnv 0) (JStr DEADLINE_ALERT) deal_for_u1
      = Normal n /\
    prioritize exampleRuntime n = Normal p /\
    well_formed n /\ well_formed p /\
    Forall (fun c => is_Some (registered initial !! c)) (channels p).
Proof.
  eexists. eexists. split; [reflexivity|]. split; [reflexivity|].
  apply (queued_notifications_well_formed exampleRuntime (exampleEnv 0)
           (JStr DEADLINE_ALERT) deal_for_u1); reflexivity.
Defined.

(** X5. The [data] of a classified notification is a copy of the payload's
    own properties with [generatedAt] set to the classification timestamp:
    a [generatedAt] of the payload is overwritten, every other property is
    kept, and the payload of a number, a boolean, [null] or [undefined]
    contributes nothing. *)
Theorem classified_data_is_payload_copy rt env eventType payload n :
  generateNotification rt env eventType payload = Normal n ->
  field (data n) "generatedAt" = JStr (isoNow env) /\
  timestamp n = isoNow env /\
  (forall k, k <> "generatedAt" -> field (data n) k = field (own_props payload) k) /\
  (own_props payload = ∅ -> data n = {["generatedAt" := JStr (isoNow env)]}).
Proof.
  intros H.
  assert (Hd : data n = <["generatedAt" := JStr (isoNow env)]> (own_props payload))
    by (classify H; reflexivity).
  assert (Ht : timestamp n = isoNow env) by (classify H; reflexivity).
  rewrite Hd. split; [apply field_insert_eq|]. split; [exact Ht|]. split.
  - intros k Hk. by apply field_insert_ne.
  - intros ->. reflexivity.
Qed.

Lemma classified_data_is_payload_copy_witness :
  exists n,
    generateNotification exampleRuntime (exampleEnv 0) (JStr "custom")
      (obj [("generatedAt", JStr "yesterday"); ("userId", JStr "u1")]) = Normal n /\
    field (data n) "generatedAt" = JStr "2024-01-01T00:00:00.000Z" /\
    field (data n) "userId" = JStr "u1".
Proof.
  eexists. split; [reflexivity|].
  destruct (classified_data_is_payload_copy exampleRuntime (exampleEnv 0) (JStr "custom")
              (obj [("generatedAt", JStr "yesterday"); ("userId", JStr "u1")]) _ eq_refl)
    as (H1 & _ & H2 & _).
  split; [exact H1|]. rewrite (H2 "userId"); [reflexivity|discriminate].
Defined.

Lemma strategic_rule_quiet n :
  nullish (opt_prop (metadata n) "clientName") = true ->
  condition strategic_rule n = Normal JUndefined.
Proof. intros H. cbn. by rewrite H. Qed.

(** X6. For the seven recognized event types other than [proposal_created]
    the metadata built by the classifier has no [clientName], so the sixth
    rule never raises on their notifications. Those of [deadline_alert],
    [compliance_low] and [escalation] always come out of the prioritizer: an
    earlier rule matches them. Those of the four other types come out
    exactly when comparing the [estimatedValue] of the payload with 1000000
    does not raise; when it raises (an object with a [toString] of its own,
    or an array that holds one), the prioritizer raises that exception. *)
Theorem prioritizer_raise_confined rt env eventType payload n :
  metadata_without_clientName eventType = true ->
  generateNotification rt env eventType payload = Normal n ->
  condition strategic_rule n = Normal JUndefined /\
  match js_gt rt (field (own_props payload) "estimatedValue") 1000000 with
  | Normal _ => exists p, prioritize rt n = Normal p
  | Throw e =>
      if existsb (strict_eq_str eventType) [DEADLINE_ALERT; COMPLIANCE_LOW; ESCALATION]
      then exists p, prioritize rt n = Normal p
      else prioritize rt n = Throw e
  end.
Proof.
  intros Hty Hgen.
  assert (Hquiet : condition strategic_rule n = Normal JUndefined).
  { apply strategic_rule_quiet.
    classify Hgen;
      try reflexivity;
      repeat match goal with
             | E : strict_eq_str _ _ = true |- _ => apply strict_eq_str_true in E; subst
             end;
      try discriminate.
    unfold metadata_without_clientName in Hty. cbn [existsb] in Hty.
    repeat match goal with E : _ = false |- _ => rewrite E in Hty; clear E end.
    discriminate. }
  split; [exact Hquiet|].
  assert (Hd : field (data n) "estimatedValue" = field (own_props payload) "estimatedValue").
  { classify Hgen; cbn [data baseNotification]; apply field_insert_ne; discriminate. }
  assert (Hfive : condition (high_value_rule rt) n
                  = cmap JBool (js_gt rt (field (own_props payload) "estimatedValue") 1000000)).
  { cbn [condition high_value_rule]. by rewrite Hd. }
  clear Hd. unfold prioritize, rules. cbn [prioritize_with].
  rewrite Hfive, Hquiet. clear Hfive Hquiet.
  classify Hgen;
    repeat match goal with
           | E : strict_eq_str _ _ = true |- _ => apply strict_eq_str_true in E; subst
           end;
    try discriminate Hty;
    try (destruct (js_gt rt _ 1000000) as [[|]|?]; cbn; eauto; fail).
  unfold metadata_without_clientName in Hty. cbn [existsb] in Hty.
  repeat match goal with E : _ = false |- _ => rewrite E in Hty; clear E end.
  discriminate.
Qed.

Lemma prioritizer_raise_confined_witness :
  exists n p,
    generateNotification exampleRuntime (exampleEnv 0) (JStr TASK_ASSIGNED) numeric_client
      = Normal n /\
    prioritize exampleRuntime n = Normal p.
Proof.
  eexists.
  destruct (prioritizer_raise_confined exampleRuntime (exampleEnv 0) (JStr TASK_ASSIGNED)
              numeric_client _ eq_refl eq_refl) as (_ & p & Hp).
  exists p. split; [reflexivity|exact Hp].
Defined.

(** A [task_assigned] payload whose [estimatedValue] is an object with a
    [toString] property of its own: the notification is classified, and
    the prioritizer raises on it. *)
Example unconvertible_estimatedValue_raises :
  cbind (generateNotification exampleRuntime (exampleEnv 0) (JStr TASK_ASSIGNED)
           (obj [("title", JStr "Review"); ("estimatedValue", obj [("toString", JNull)])]))
        (fun n => cmap priority (prioritize exampleRuntime n))
  = Throw (TypeError "Cannot convert object to primitive value").
Proof. vm_compute. reflexivity. Qed.

(** ** The rate-limit table *)

(** The table after a call is the table before, or the table with the
    entry of the recipient set to [now]. *)
Lemma isRateLimited_table now n rl :
  snd (isRateLimited now n rl) = rl \/
  (ToBoolean (recipient n) = true /\
   fst (isRateLimited now n rl) = false /\
   snd (isRateLimited now n rl) =
     map_set rl (recipient n)
       {| lastNotification := now;
          count := match map_get rl (recipient n) with
                   | Some st => count st
                   | None => 0
                   end + 1 |}).
Proof.
  unfold isRateLimited.
  destruct (ToBoolean (recipient n)); cbn [negb]; [|by left].
  destruct (map_get rl (recipient n)) as [st|]; [|right; auto].
  destruct (now - lastNotification st <? getMinInterval (priority n)); [by left|right; auto].
Qed.

(** X7. Once a notification of a recipient with a string, number or boolean
    id has been admitted at time [now], the next decision for that recipient
    depends on the elapsed time alone: a notification at [now2] is rejected
    exactly when [now2 - now] is below the interval of its own priority. *)
Theorem admitted_then_limited (now now2 : Z) (n n2 : Notification) (rl : JsMap RateLimit) :
  findable (recipient n) ->
  ToBoolean (recipient n) = true ->
  recipient n2 = recipient n ->
  fst (isRateLimited now n rl) = false ->
  map_get (snd (isRateLimited now n rl)) (recipient n)
  = Some {| lastNotification := now;
            count := match map_get rl (recipient n) with
                     | Some st => count st
                     | None => 0
                     end + 1 |} /\
  fst (isRateLimited now2 n2 (snd (isRateLimited now n rl)))
  = (now2 - now <? getMinInterval (priority n2)).
Proof.
  intros Hfind Hkey Hsame Hadm.
  destruct (isRateLimited_table now n rl) as [Hsnd|(_ & _ & Hsnd)].
  { exfalso. unfold isRateLimited in Hadm, Hsnd. rewrite Hkey in Hadm, Hsnd.
    cbn [negb] in Hadm, Hsnd.
    destruct (map_get rl (recipient n)) as [st|] eqn:Hget.
    - destruct (now - lastNotification st <? getMinInterval (priority n)); [discriminate|].
      cbn in Hsnd. pose proof (map_get_set_same rl (recipient n)
        {| lastNotification := now; count := count st + 1 |} Hfind) as H.
      rewrite Hsnd, Hget in H. injection H as H. destruct st as [l c]. cbn in H.
      injection H as _ H. lia.
    - cbn in Hsnd. pose proof (map_get_set_same rl (recipient n)
        {| lastNotification := now; count := 0 + 1 |} Hfind) as H.
      rewrite Hsnd, Hget in H. discriminate. }
  rewrite Hsnd. split; [by apply map_get_set_same|].
  unfold isRateLimited at 1. rewrite Hsame, Hkey. cbn [negb].
  rewrite map_get_set_same by exact Hfind. cbn [lastNotification].
  by destruct (now2 - now <? getMinInterval (priority n2)).
Qed.

Lemma admitted_then_limited_witness :
  fst (isRateLimited 40000 medium_u1
         (snd (isRateLimited 31000 medium_u1 (rateLimiters after_u1)))) = true.
Proof.
  rewrite (proj2 (admitted_then_limited 31000 40000 medium_u1 medium_u1
                    (rateLimiters after_u1) eq_refl eq_refl eq_refl eq_refl)).
  reflexivity.
Defined.

Lemma isRateLimited_keeps_entries now n rl k st :
  map_get rl k = Some st ->
  exists st', map_get (snd (isRateLimited now n rl)) k = Some st' /\ count st <= count st'.
Proof.
  intros Hget. destruct (isRateLimited_table now n rl) as [->|(_ & _ & ->)].
  - exists st. split; [exact Hget|lia].
  - destruct (same_value_zero (recipient n) k) eqn:E.
    + pose proof (same_value_zero_eq _ _ E) as Hk. rewrite Hk in *.
      rewrite map_get_set_same by exact E. rewrite Hget. eexists. split; [reflexivity|].
      cbn. lia.
    + rewrite map_get_set_other by exact E. exists st. split; [exact Hget|lia].
Qed.

Lemma publish_rateLimiters rt env now eventType data s :
  rateLimiters (snd (publish rt env now eventType data s)) = rateLimiters s \/
  exists n, rateLimiters (snd (publish rt env now eventType data s))
            = snd (isRateLimited now n (rateLimiters s)).
Proof.
  destruct (template rt eventType) as [shown|e] eqn:Hshown.
  2: { left. by rewrite (publish_raises _ _ _ _ _ _ _ Hshown). }
  destruct (generateNotification rt env eventType data) as [n0|e] eqn:Hgen.
  - destruct (prioritize rt n0) as [n|e] eqn:Hprio.
    + right. exists n.
      destruct (publish_after_prioritize _ _ now _ _ _ _ s Hgen Hprio) as (? & _ & ->).
      cbn zeta.
      change (rateLimiters (add_logged info _ s)) with (rateLimiters s).
      destruct (isRateLimited now n (rateLimiters s)) as [[|] r]; cbn; [reflexivity|].
      by destruct (batchTimer s).
    + left. unfold publish. unfold_M. by rewrite Hshown, Hgen, Hprio.
  - left. unfold publish. unfold_M. by rewrite Hshown, Hgen.
Qed.

Lemma step_keeps_entries rt ev s k st :
  map_get (rateLimiters s) k = Some st ->
  exists st', map_get (rateLimiters (step rt ev s)) k = Some st' /\ count st <= count st'.
Proof.
  intros Hget. destruct ev as [env now eventType data|due now|now]; cbn [step].
  - destruct (publish_rateLimiters rt env now eventType data s) as [->|(n & ->)].
    + exists st. split; [exact Hget|lia].
    + by apply isRateLimited_keeps_entries.
  - destruct (pending due s); [|exists st; split; [exact Hget|lia]].
    destruct (batchTimerCallback_effect due now s) as (s' & -> & _ & _ & Hr & _).
    cbn [snd]. rewrite Hr. exists st. split; [exact Hget|lia].
  - destruct (sweepCallback_effect now s) as (s' & -> & _ & _ & Hr & _).
    cbn [snd]. rewrite Hr. exists st. split; [exact Hget|lia].
Qed.

(** X8. The rate-limit table only grows: over any history of publish
    calls, timeouts and sweeps, an entry that is in the table stays in the
    table, and its admission count never decreases. Nothing ever evicts a
    recipient. *)
Theorem rate_entries_never_evicted rt (events : list Event) (s : ServiceState)
    (k : JsValue) (st : RateLimit) :
  map_get (rateLimiters s) k = Some st ->
  exists st', map_get (rateLimiters (run rt events s)) k = Some st' /\
              count st <= count st'.
Proof.
  revert s st. induction events as [|ev events IH]; intros s st Hget.
  - exists st. split; [exact Hget|lia].
  - cbn [run fold_left].
    destruct (step_keeps_entries rt ev s k st Hget) as (st1 & Hget1 & Hc1).
    destruct (IH _ _ Hget1) as (st2 & Hget2 & Hc2).
    exists st2. split; [exact Hget2|lia].
Qed.

Lemma rate_entries_never_evicted_witness :
  exists st',
    map_get (rateLimiters
               (run exampleRuntime
                  [Publish (exampleEnv 31000) 31000 (JStr PROPOSAL_CREATED) deal_for_u1;
                   Timeout 36000 36000; Sweep 40000] after_u1)) (JStr "u1") = Some st' /\
    1 <= count st'.
Proof.
  apply (rate_entries_never_evicted exampleRuntime _ after_u1 (JStr "u1")
           {| lastNotification := 0; count := 1 |}).
  reflexivity.
Defined.

(** X9. A decision for one recipient leaves the entries of all other
    recipients as they are, and adds at most one entry to the table. *)
Theorem rate_limit_is_per_recipient (now : Z) (n : Notification)
    (rl : JsMap RateLimit) (other : JsValue) :
  same_value_zero (recipient n) other = false ->
  map_get (snd (isRateLimited now n rl)) other = map_get rl other /\
  (length rl <= length (snd (isRateLimited now n rl)) <= S (length rl))%nat.
Proof.
  intros Hother. destruct (isRateLimited_table now n rl) as [->|(_ & _ & ->)].
  - split; [reflexivity|lia].
  - split; [by apply map_get_set_other|apply map_set_length].
Qed.

Lemma rate_limit_is_per_recipient_witness :
  map_get (snd (isRateLimited 31000 medium_u2 (rateLimiters after_u1))) (JStr "u1")
  = Some {| lastNotification := 0; count := 1 |}.
Proof.
  rewrite (proj1 (rate_limit_is_per_recipient 31000 medium_u2 (rateLimiters after_u1)
                    (JStr "u1") eq_refl)).
  reflexivity.
Defined.

(** X10. The intervals shrink as the priority grows: on the scale 1..5 a
    higher priority never waits longer than a lower one; every interval
    lies between one second and one minute; a priority off the scale waits
    the full minute of LOW. *)
Theorem getMinInterval_antitone (p q : Z) :
  (1000 <= getMinInterval p <= 60000) /\
  (LOW <= p -> p <= q -> q <= CRITICAL -> getMinInterval q <= getMinInterval p) /\
  (p < LOW \/ CRITICAL < p -> getMinInterval p = getMinInterval LOW).
Proof.
  unfold getMinInterval, LOW, MEDIUM, HIGH, URGENT, CRITICAL.
  split; [|split].
  - repeat match goal with |- context [?a =? ?b] => destruct (Z.eqb_spec a b) end; lia.
  - intros H1 H2 H3.
    repeat match goal with |- context [?a =? ?b] => destruct (Z.eqb_spec a b) end; lia.
  - intros H.
    repeat match goal with |- context [?a =? ?b] => destruct (Z.eqb_spec a b) end; lia.
Qed.

Lemma getMinInterval_antitone_witness :
  getMinInterval URGENT <= getMinInterval MEDIUM /\ getMinInterval 9 = getMinInterval LOW.
Proof.
  split.
  - apply (proj1 (proj2 (getMinInterval_antitone MEDIUM URGENT))); discriminate.
  - apply (proj2 (proj2 (getMinInterval_antitone 9 9))). right. reflexivity.
Defined.

Lemma generateNotification_data rt env eventType payload n :
  generateNotification rt env eventType payload = Normal n ->
  data n = <["generatedAt" := JStr (isoNow env)]> (own_props payload).
Proof. intros H. classify H; reflexivity. Qed.

(** X11. The recipient of a published event is the [userId] property of its
    payload and nothing else. An event whose payload has no truthy [userId]
    is never rate limited: whenever the classifier and the prioritizer
    return, it is queued and emitted, and the table is left as it is. *)
Theorem events_without_userId_bypass_gate rt env now eventType payload n0 n
    (s : ServiceState) :
  generateNotification rt env eventType payload = Normal n0 ->
  prioritize rt n0 = Normal n ->
  recipient n = field (own_props payload) "userId" /\
  (ToBoolean (field (own_props payload) "userId") = false ->
   exists s',
     publish rt env now eventType payload s = (Normal tt, s') /\
     notificationQueue s' = notificationQueue s ++ [n] /\
     emitted s' = emitted s ++ [n] /\
     rateLimiters s' = rateLimiters s).
Proof.
  intros Hgen Hprio.
  assert (Hrec : recipient n = field (own_props payload) "userId").
  { destruct (prioritize_keeps _ _ _ Hprio) as (_ & Hu & Hd & _).
    destruct (generateNotification_well_formed _ _ _ _ _ Hgen) as (_ & _ & _ & _ & Hid).
    unfold recipient. rewrite Hu, Hd, Hid, (generateNotification_data _ _ _ _ _ Hgen).
    unfold js_or. cbn [ToBoolean]. by apply field_insert_ne. }
  split; [exact Hrec|]. intros Habsent.
  destruct (publish_after_prioritize _ _ now _ _ _ _ s Hgen Hprio) as (? & _ & ->).
  cbn zeta.
  change (rateLimiters (add_logged info _ s)) with (rateLimiters s).
  rewrite isRateLimited_absent by (by rewrite Hrec).
  eexists. split; [reflexivity|]. cbn. by destruct (batchTimer s).
Qed.

Lemma events_without_userId_bypass_gate_witness :
  exists s',
    publish exampleRuntime (exampleEnv 0) 0 (JStr ESCALATION) escalation_payload after_u1
      = (Normal tt, s') /\
    length (notificationQueue s') = 1%nat /\
    rateLimiters s' = rateLimiters after_u1.
Proof.
  destruct (proj2 (events_without_userId_bypass_gate exampleRuntime (exampleEnv 0) 0
                     (JStr ESCALATION) escalation_payload _ _ after_u1 eq_refl eq_refl)
              eq_refl) as (s' & Hrun & Hq & _ & Hr).
  exists s'. split; [exact Hrun|]. split; [by rewrite Hq|exact Hr].
Defined.

(** ** The order and the batches of a flush *)

Lemma filter_priority_nil l :
  (forall p, filter (fun n : Notification => priority n = p) l = []) -> l = [].
Proof.
  destruct l as [|x l]; [reflexivity|]. intros H. specialize (H (priority x)).
  rewrite filter_cons_True in H by reflexivity. discriminate.
Qed.

Lemma by_priority_desc_head x l y :
  by_priority_desc (x :: l) -> y ∈ x :: l -> priority y <= priority x.
Proof.
  intros Hs Hy. apply StronglySorted_inv in Hs as [_ Hx].
  apply elem_of_cons in Hy as [->|Hy]; [lia|].
  rewrite Forall_forall in Hx. by apply Hx.
Qed.

(** Two arrangements that are both descending in priority and keep the
    notifications of each priority in the same order are the same list. *)
Lemma stable_sorted_unique l1 l2 :
  by_priority_desc l1 -> by_priority_desc l2 ->
  (forall p, filter (fun n => priority n = p) l1 = filter (fun n => priority n = p) l2) ->
  l1 = l2.
Proof.
  revert l2. induction l1 as [|x l1 IH]; intros l2 H1 H2 Hf.
  - symmetry. apply filter_priority_nil. intros p. by rewrite <- Hf.
  - destruct l2 as [|y l2].
    { apply filter_priority_nil. intros p. by rewrite Hf. }
    assert (Hyx : priority y <= priority x).
    { apply (by_priority_desc_head x l1 y H1).
      apply (list_elem_of_filter (fun n => priority n = priority y)).
      rewrite Hf, filter_cons_True by reflexivity. apply list_elem_of_here. }
    assert (Hxy : priority x <= priority y).
    { apply (by_priority_desc_head y l2 x H2).
      apply (list_elem_of_filter (fun n => priority n = priority x)).
      rewrite <- Hf, filter_cons_True by reflexivity. apply list_elem_of_here. }
    assert (Hp : priority y = priority x) by lia.
    pose proof (Hf (priority x)) as Hhead.
    rewrite filter_cons_True in Hhead by reflexivity.
    rewrite filter_cons_True in Hhead by exact Hp.
    injection Hhead as -> _. f_equal.
    apply IH.
    + by apply StronglySorted_inv in H1 as [? _].
    + by apply StronglySorted_inv in H2 as [? _].
    + intros p. specialize (Hf p). rewrite !filter_cons in Hf.
      destruct (decide (priority y = p)); [by injection Hf|exact Hf].
Qed.

(** X12. The order in which a sub-batch reaches its sender is determined by
    the two properties of a stable sort: any arrangement that is descending
    in priority and keeps the notifications of each priority in their batch
    order is the one computed; in particular a sub-batch that is already
    descending is handed over as it is. *)
Theorem sort_by_priority_unique (l l' : list Notification) :
  (by_priority_desc l' ->
   (forall p, filter (fun n => priority n = p) l' = filter (fun n => priority n = p) l) ->
   l' = sort_by_priority l) /\
  (by_priority_desc l -> sort_by_priority l = l).
Proof.
  split.
  - intros Hs Hf. apply stable_sorted_unique; [exact Hs|apply sort_by_priority_sorted|].
    intros p. by rewrite sort_by_priority_stable.
  - intros Hs. apply stable_sorted_unique; [apply sort_by_priority_sorted|exact Hs|].
    intros p. apply sort_by_priority_stable.
Qed.

Lemma sort_by_priority_unique_witness :
  by_priority_desc [urgent_example; low_example] /\
  sort_by_priority [urgent_example; low_example] = [urgent_example; low_example].
Proof.
  assert (H : by_priority_desc [urgent_example; low_example]).
  { repeat constructor. discriminate. }
  split; [exact H|].
  apply (proj2 (sort_by_priority_unique [urgent_example; low_example] [])). exact H.
Defined.

Lemma deliveries_keys reg grouped c :
  In c (map fst (deliveries reg grouped)) -> In c (map fst grouped).
Proof.
  induction grouped as [|[c0 ns] grouped IH]; cbn; [tauto|].
  unfold deliveries in *. cbn. rewrite map_app, in_app_iff. unfold handed at 1. cbn.
  destruct (reg !! c0); cbn; intuition.
Qed.

Lemma deliveries_NoDup reg grouped :
  NoDup (map fst grouped) -> NoDup (map fst (deliveries reg grouped)).
Proof.
  induction grouped as [|[c0 ns] grouped IH]; cbn; [constructor|].
  intros [Hc0 Hnd]%NoDup_cons. specialize (IH Hnd).
  unfold deliveries in *. cbn. unfold handed at 1. cbn.
  destruct (reg !! c0); cbn; [|exact IH].
  apply NoDup_cons. split; [|exact IH].
  intros Hin%list_elem_of_In%deliveries_keys. by apply Hc0, list_elem_of_In.
Qed.

Lemma deliveries_In reg grouped c b :
  In (c, b) (deliveries reg grouped) ->
  is_Some (reg !! c) /\ exists sub, In (c, sub) grouped /\ b = sort_by_priority sub.
Proof.
  unfold deliveries. intros ([c0 sub] & Hin & Hb)%in_flat_map.
  unfold handed in Hb. cbn in Hb.
  destruct (reg !! c0) eqn:Hreg; [|destruct Hb].
  destruct Hb as [[= <- <-]|[]]. split; [by rewrite Hreg|]. by exists sub.
Qed.

(** X13. In one flush a sender is called at most once, never with an empty
    batch: the batches handed over go to pairwise different channels, that
    all have a sender, and each is a non-empty rearrangement, descending in
    priority, of the notifications of the flushed batch that name the
    channel. *)
Theorem one_batch_per_channel (now : Z) (s : ServiceState) :
  notificationQueue s <> [] ->
  exists s' new,
    processBatch now s = (Normal tt, s') /\
    sent s' = sent s ++ new /\
    NoDup (map fst new) /\
    Forall (fun e =>
              is_Some (registered s !! fst e) /\
              snd e <> [] /\
              by_priority_desc (snd e) /\
              Permutation (snd e)
                (sub_batch (fst e) (take batchSize (notificationQueue s)))) new.
Proof.
  intros Hq. destruct (processBatch_flush now s Hq) as (s' & Hrun & _ & Hsent & _).
  eexists s', _. split; [exact Hrun|]. split; [exact Hsent|].
  destruct (groupBatchByChannel_well_grouped (take batchSize (notificationQueue s)))
    as [Hnd _].
  split; [by apply deliveries_NoDup|].
  apply Forall_forall. intros [c b] Hin%list_elem_of_In.
  apply deliveries_In in Hin as (Hreg & sub & Hsub & ->).
  apply groupBatchByChannel_In in Hsub as [-> Hne]. cbn [fst snd].
  split; [exact Hreg|]. split.
  - intros Hnil. apply Hne. apply Permutation_nil_r.
    rewrite <- Hnil. symmetry. apply sort_by_priority_perm.
  - split; [apply sort_by_priority_sorted|apply sort_by_priority_perm].
Qed.

Lemma one_batch_per_channel_witness :
  exists s' new,
    processBatch 0 degraded = (Normal tt, s') /\
    sent s' = sent degraded ++ new /\
    NoDup (map fst new).
Proof.
  destruct (one_batch_per_channel 0 degraded ltac:(discriminate))
    as (s' & new & H1 & H2 & H3 & _).
  exists s', new. auto.
Defined.

Lemma sub_batch_elem c batch n :
  In n (sub_batch c batch) -> In n batch /\ In c (channels n).
Proof.
  unfold sub_batch. intros (m & Hm & Hin)%in_flat_map.
  apply in_map_iff in Hin as (c0 & <- & Hc0).
  apply list_elem_of_In, list_elem_of_filter in Hc0 as [Heq Hc0].
  apply String.eqb_eq in Heq as <-. split; [exact Hm|by apply list_elem_of_In].
Qed.

(** X14. A notification none of whose channels has a sender is lost
    without a trace: the flush that takes it off the queue hands it to
    nobody. This includes a notification that names no channel at all. *)
Theorem unroutable_notification_is_dropped (now : Z) (s : ServiceState)
    (n : Notification) :
  notificationQueue s <> [] ->
  Forall (fun c => registered s !! c = None) (channels n) ->
  exists s' new,
    processBatch now s = (Normal tt, s') /\
    notificationQueue s' = drop batchSize (notificationQueue s) /\
    sent s' = sent s ++ new /\
    Forall (fun e => ~ In n (snd e)) new.
Proof.
  intros Hq Hnone. destruct (processBatch_flush now s Hq) as (s' & Hrun & Hq' & Hsent & _).
  eexists s', _. split; [exact Hrun|]. split; [exact Hq'|]. split; [exact Hsent|].
  apply Forall_forall. intros [c b] Hin%list_elem_of_In. cbn [snd]. intros Hn.
  apply deliveries_In in Hin as ([sender Hreg] & sub & Hsub & ->).
  apply groupBatchByChannel_In in Hsub as [-> _].
  apply (Permutation_in _ (sort_by_priority_perm _)) in Hn.
  apply sub_batch_elem in Hn as [_ Hc].
  rewrite Forall_forall in Hnone. rewrite (Hnone c) in Hreg; [discriminate|].
  by apply list_elem_of_In.
Qed.

Lemma unroutable_notification_is_dropped_witness :
  exists s' new,
    processBatch 0 (set_queue [critical_example]
                      (mkState [] None [] ∅ [] [] [] [])) = (Normal tt, s') /\
    notificationQueue s' = [] /\
    sent s' = new /\
    Forall (fun e => ~ In critical_example (snd e)) new.
Proof.
  destruct (unroutable_notification_is_dropped 0
              (set_queue [critical_example] (mkState [] None [] ∅ [] [] [] []))
              critical_example ltac:(discriminate))
    as (s' & new & H1 & H2 & H3 & H4).
  - repeat constructor.
  - exists s', new. auto.
Defined.

(** * The preference cache and the senders *)

(** ** User preferences *)

(** X15. Preferences that were updated are the ones returned afterwards: for
    a user id that is a string, number or boolean, a lookup after an update
    returns the updated preferences and leaves the cache as it is, and the
    update does not change what a lookup for any other user returns. *)
Theorem preferences_round_trip rt (userId preferences : JsValue)
    (userPreferences : JsMap JsValue) :
  findable userId ->
  let updated := fst (updateUserPreferences rt userId preferences userPreferences) in
  getUserPreferences userId updated = (preferences, updated) /\
  forall other,
    same_value_zero userId other = false ->
    fst (getUserPreferences other updated) = fst (getUserPreferences other userPreferences).
Proof.
  intros Hfind updated. subst updated. cbn [updateUserPreferences fst]. split.
  - unfold getUserPreferences, getUserPreferences_begin.
    by rewrite map_get_set_same.
  - intros other Hother. unfold getUserPreferences, getUserPreferences_begin.
    rewrite map_get_set_other by exact Hother.
    by destruct (map_get userPreferences other).
Qed.

Lemma preferences_round_trip_witness :
  getUserPreferences (JStr "u1")
    (fst (updateUserPreferences exampleRuntime (JStr "u1") (obj [("channels", obj [])]) []))
  = (obj [("channels", obj [])],
     fst (updateUserPreferences exampleRuntime (JStr "u1") (obj [("channels", obj [])]) [])).
Proof.
  apply (proj1 (preferences_round_trip exampleRuntime (JStr "u1")
                  (obj [("channels", obj [])]) [] eq_refl)).
Defined.

(** X16. The first lookup for a user without cached preferences returns the
    defaults (in-app and e-mail on, Slack and Teams off, no quiet hours, no
    do-not-disturb) under the user's id and caches them: the next lookup
    returns the same preferences without touching the cache. *)
Theorem preferences_default_cached (userId : JsValue) (userPreferences : JsMap JsValue) :
  findable userId ->
  map_get userPreferences userId = None ->
  let preferences := fst (getUserPreferences userId userPreferences) in
  let cached := snd (getUserPreferences userId userPreferences) in
  getUserPreferences userId cached = (preferences, cached) /\
  get_prop preferences "userId" = userId /\
  map (get_prop (get_prop preferences "channels")) [IN_APP; EMAIL; SLACK; TEAMS]
  = [JBool true; JBool true; JBool false; JBool false] /\
  get_prop (get_prop preferences "quietHours") "enabled" = JBool false /\
  get_prop (get_prop preferences "doNotDisturb") "enabled" = JBool false.
Proof.
  intros Hfind Hmiss preferences cached. subst preferences cached.
  assert (Hfirst : getUserPreferences userId userPreferences
                   = (loadUserPreferences userId,
                      map_set userPreferences userId (loadUserPreferences userId))).
  { unfold getUserPreferences, getUserPreferences_begin. by rewrite Hmiss. }
  rewrite Hfirst. cbn [fst snd]. split.
  - unfold getUserPreferences, getUserPreferences_begin. by rewrite map_get_set_same.
  - repeat split.
Qed.

Lemma preferences_default_cached_witness :
  get_prop (get_prop (fst (getUserPreferences (JStr "u1") [])) "channels") SLACK
  = JBool false.
Proof.
  pose proof (preferences_default_cached (JStr "u1") [] eq_refl eq_refl) as H.
  cbv zeta in H. destruct H as (_ & _ & H & _).
  exact (f_equal (fun l => nth 2 l JNull) H).
Defined.

(** X17. A lookup that has to load is not atomic: preferences updated while
    it is suspended are overwritten by the defaults when it resumes, and
    later lookups return the defaults, not the update. *)
Theorem preferences_lost_update rt (userId preferences : JsValue)
    (userPreferences : JsMap JsValue) :
  findable userId ->
  map_get userPreferences userId = None ->
  exists loaded,
    getUserPreferences_begin userId userPreferences = Loading userId loaded /\
    let updated := fst (updateUserPreferences rt userId preferences userPreferences) in
    let resumed := getUserPreferences_resume userId loaded updated in
    map_get updated userId = Some preferences /\
    fst resumed = loadUserPreferences userId /\
    getUserPreferences userId (snd resumed) = (loadUserPreferences userId, snd resumed).
Proof.
  intros Hfind Hmiss. exists (loadUserPreferences userId).
  unfold getUserPreferences_begin. rewrite Hmiss. split; [reflexivity|].
  cbn [updateUserPreferences getUserPreferences_resume fst snd].
  split; [by apply map_get_set_same|]. split; [reflexivity|].
  unfold getUserPreferences, getUserPreferences_begin. by rewrite map_get_set_same.
Qed.

Lemma preferences_lost_update_witness :
  exists loaded,
    getUserPreferences_begin (JStr "u1") [] = Loading (JStr "u1") loaded /\
    fst (getUserPreferences (JStr "u1")
           (snd (getUserPreferences_resume (JStr "u1") loaded
                   (fst (updateUserPreferences exampleRuntime (JStr "u1") JNull [])))))
    = loadUserPreferences (JStr "u1").
Proof.
  destruct (preferences_lost_update exampleRuntime (JStr "u1") JNull [] eq_refl eq_refl)
    as (loaded & Hbegin & H).
  cbv zeta in H. destruct H as (_ & _ & H).
  exists loaded. split; [exact Hbegin|]. by rewrite H.
Defined.

(** ** E-mail *)

Lemma group_of_push {A} (m : JsMap (list A)) k x k2 :
  group_of (map_push m k x) k2
  = group_of m k2 ++ (if same_value_zero k k2 then [x] else []).
Proof.
  unfold group_of. induction m as [|[k' xs] m IH]; cbn.
  - by destruct (same_value_zero k k2).
  - destruct (same_value_zero k' k) eqn:E; cbn.
    + apply same_value_zero_eq in E as ->.
      destruct (same_value_zero k k2); cbn; [reflexivity|by rewrite app_nil_r].
    + destruct (same_value_zero k' k2) eqn:E2; cbn; [|exact IH].
      destruct (same_value_zero k k2) eqn:E3; [|by rewrite app_nil_r].
      pose proof (same_value_zero_eq _ _ E2). pose proof (same_value_zero_eq _ _ E3).
      subst. congruence.
Qed.

Lemma map_push_concat {A} (m : JsMap (list A)) k x :
  Permutation (concat (map snd (map_push m k x))) (concat (map snd m) ++ [x]).
Proof.
  induction m as [|[k' xs] m IH]; cbn; [reflexivity|].
  destruct (same_value_zero k' k); cbn.
  - rewrite <- !app_assoc. apply Permutation_app_head, Permutation_app_comm.
  - rewrite IH. by rewrite app_assoc.
Qed.

Lemma map_push_keyed {A} (f : A -> JsValue) (m : JsMap (list A)) x :
  Forall (fun g => snd g <> [] /\ Forall (fun y => f y = fst g) (snd g)) m ->
  Forall (fun g => snd g <> [] /\ Forall (fun y => f y = fst g) (snd g))
         (map_push m (f x) x).
Proof.
  induction 1 as [|[k' xs] m [Hne Hk] Hm IH]; cbn.
  - repeat constructor. discriminate.
  - destruct (same_value_zero k' (f x)) eqn:E; constructor; try assumption; cbn in *.
    + apply same_value_zero_eq in E. split; [by destruct xs|].
      apply Forall_app. split; [exact Hk|]. by repeat constructor.
    + by split.
Qed.

Lemma groupByRecipient_fold ns m :
  let grouped :=
    fold_left (fun grouped n => map_push grouped (EmailChannel.getRecipient n) n) ns m in
  Permutation (concat (map snd grouped)) (concat (map snd m) ++ ns) /\
  (Forall (fun g => snd g <> [] /\
                    Forall (fun n => EmailChannel.getRecipient n = fst g) (snd g)) m ->
   Forall (fun g => snd g <> [] /\
                    Forall (fun n => EmailChannel.getRecipient n = fst g) (snd g)) grouped) /\
  forall k,
    group_of grouped k
    = group_of m k
      ++ filter (fun n => same_value_zero (EmailChannel.getRecipient n) k = true) ns.
Proof.
  revert m. induction ns as [|n ns IH]; intros m; cbn [fold_left].
  - cbn. rewrite !app_nil_r. split; [reflexivity|]. split; [auto|].
    intros k. by rewrite app_nil_r.
  - destruct (IH (map_push m (EmailChannel.getRecipient n) n)) as (Hperm & Hkeyed & Hgroup).
    cbv zeta in *. split; [|split].
    + rewrite Hperm, map_push_concat, <- app_assoc. reflexivity.
    + intros Hm. apply Hkeyed. by apply map_push_keyed.
    + intros k. rewrite Hgroup, group_of_push, filter_cons, <- app_assoc.
      by destruct (same_value_zero (EmailChannel.getRecipient n) k).
Qed.

(** X18. The e-mail sender partitions a batch by recipient: every
    notification of the batch is in exactly one group (the groups together
    are a rearrangement of the batch), no group is empty, the members of a
    group all have the recipient the group is keyed by, and the group of a
    recipient holds its notifications in batch order. *)
Theorem email_groups_partition_batch (notifications : list Notification) :
  let grouped := EmailChannel.groupByRecipient notifications in
  Permutation (concat (map snd grouped)) notifications /\
  Forall (fun g => snd g <> [] /\
                   Forall (fun n => EmailChannel.getRecipient n = fst g) (snd g)) grouped /\
  forall k,
    group_of grouped k
    = filter (fun n => same_value_zero (EmailChannel.getRecipient n) k = true) notifications.
Proof.
  destruct (groupByRecipient_fold notifications []) as (Hperm & Hkeyed & Hgroup).
  cbv zeta in *. split; [exact Hperm|]. split; [apply Hkeyed; constructor|].
  intros k. by rewrite Hgroup.
Qed.

Lemma groupByRecipient_one_key ns k acc :
  Forall (fun n => EmailChannel.getRecipient n = k) ns ->
  findable k ->
  fold_left (fun grouped n => map_push grouped (EmailChannel.getRecipient n) n)
            ns [(k, acc)]
  = [(k, acc ++ ns)].
Proof.
  intros Hall Hfind. revert acc.
  induction Hall as [|m ns Hm _ IH]; intros acc; cbn [fold_left].
  - by rewrite app_nil_r.
  - cbn [map_push]. rewrite Hm, Hfind, IH. by rewrite <- app_assoc.
Qed.

Lemma groupByRecipient_single ns k :
  ns <> [] ->
  Forall (fun n => EmailChannel.getRecipient n = k) ns ->
  findable k ->
  EmailChannel.groupByRecipient ns = [(k, ns)].
Proof.
  intros Hne Hall Hfind. unfold EmailChannel.groupByRecipient.
  destruct ns as [|n ns]; [done|]. apply Forall_cons in Hall as [Hn Hall].
  cbn [fold_left map_push]. rewrite Hn.
  by rewrite (groupByRecipient_one_key ns k [n] Hall Hfind).
Qed.

(** X19. Notifications without an address all go to one message addressed
    to [undefined]. When no notification of a non-empty batch carries a
    [userId], an assignee e-mail or a creator e-mail (the classifier never
    sets [userId], and its payloads need carry none of these), the e-mail
    sender sends exactly one message, to the recipient [undefined], that
    aggregates the whole batch. *)
Theorem email_without_address_goes_to_undefined rt (notifications : list Notification) :
  notifications <> [] ->
  Forall no_address notifications ->
  Forall (fun n => EmailChannel.getRecipient n = JUndefined) notifications /\
  fst (EmailChannel.sendBatch rt notifications)
  = [fst (EmailChannel.sendEmail rt JUndefined notifications)] /\
  map EmailChannel.to (fst (EmailChannel.sendBatch rt notifications)) = [JUndefined].
Proof.
  intros Hne Hall.
  assert (Hrec : Forall (fun n => EmailChannel.getRecipient n = JUndefined) notifications).
  { eapply Forall_impl; [exact Hall|]. intros n (Hu & Ha & Hc).
    unfold EmailChannel.getRecipient, js_or. by rewrite Ha, Hc, Hu. }
  split; [exact Hrec|].
  unfold EmailChannel.sendBatch.
  rewrite (groupByRecipient_single notifications JUndefined Hne Hrec eq_refl).
  split; reflexivity.
Qed.

Lemma email_without_address_goes_to_undefined_witness :
  [low_example; urgent_example] <> [] /\
  Forall no_address [low_example; urgent_example] /\
  map EmailChannel.to (fst (EmailChannel.sendBatch exampleRuntime [low_example; urgent_example]))
  = [JUndefined].
Proof.
  assert (H : Forall no_address [low_example; urgent_example])
    by (repeat constructor).
  split; [discriminate|]. split; [exact H|].
  apply (email_without_address_goes_to_undefined exampleRuntime
           [low_example; urgent_example] ltac:(discriminate) H).
Defined.

(** ** In-app *)

(** The identifiers of the connections convert to strings, as those of
    the connections a server registers do. *)
Lemma emit_keeps_ids rt n clients :
  Forall (fun c => converts rt (InAppChannel.clientId c)) clients ->
  Forall (fun c => converts rt (InAppChannel.clientId c))
    (InAppChannel.connections (InAppChannel.emit rt n clients)).
Proof.
  induction 1 as [|c clients Hc _ IH]; cbn [InAppChannel.emit]; [constructor|].
  destruct (InAppChannel.ws c (InAppChannel.delivered c) n); cbn.
  - constructor; [exact Hc|exact IH].
  - destruct Hc as [shown ->]. exact IH.
Qed.

Lemma emit_reliable rt n clients c :
  Forall (fun c => converts rt (InAppChannel.clientId c)) clients ->
  In c clients -> reliable (InAppChannel.ws c) ->
  InAppChannel.completion (InAppChannel.emit rt n clients) = Normal tt /\
  In {| InAppChannel.clientId := InAppChannel.clientId c;
        InAppChannel.ws := InAppChannel.ws c;
        InAppChannel.delivered := InAppChannel.delivered c ++ [n] |}
     (InAppChannel.connections (InAppChannel.emit rt n clients)).
Proof.
  intros Hids Hin Hrel. induction Hids as [|c0 clients Hc0 Hids IH]; [destruct Hin|].
  assert (Hdone : InAppChannel.completion (InAppChannel.emit rt n (c0 :: clients))
                  = Normal tt).
  { clear IH Hin. cbn [InAppChannel.emit].
    assert (Hrest : InAppChannel.completion (InAppChannel.emit rt n clients) = Normal tt).
    { clear Hc0. induction Hids as [|c1 clients [shown Hc1] _ IH]; [reflexivity|].
      cbn [InAppChannel.emit].
      destruct (InAppChannel.ws c1 (InAppChannel.delivered c1) n); [exact IH|].
      rewrite Hc1. exact IH. }
    destruct (InAppChannel.ws c0 (InAppChannel.delivered c0) n); [exact Hrest|].
    destruct Hc0 as [shown ->]. exact Hrest. }
  split; [exact Hdone|]. cbn [InAppChannel.emit].
  destruct Hin as [->|Hin].
  - rewrite Hrel. cbn. by left.
  - destruct (IH Hin) as [_ IH'].
    destruct (InAppChannel.ws c0 (InAppChannel.delivered c0) n); cbn; [by right|].
    destruct Hc0 as [shown ->]. exact IH'.
Qed.

(** X20. A failing connection does not disturb the others, as long as the
    identifiers of the connected clients convert to strings (as strings and
    numbers do): a client whose connection never raises is sent every
    notification of the batch, in batch order, and is still connected
    afterwards, whatever the other connections do, and the call returns
    normally. *)
Theorem in_app_reliable_client_gets_batch rt (notifications : list Notification)
    (connectedClients : list InAppChannel.Client) (c : InAppChannel.Client) :
  Forall (fun c => converts rt (InAppChannel.clientId c)) connectedClients ->
  In c connectedClients ->
  reliable (InAppChannel.ws c) ->
  InAppChannel.completion (InAppChannel.sendBatch rt notifications connectedClients)
  = Normal tt /\
  In {| InAppChannel.clientId := InAppChannel.clientId c;
        InAppChannel.ws := InAppChannel.ws c;
        InAppChannel.delivered := InAppChannel.delivered c ++ notifications |}
     (InAppChannel.connections
        (InAppChannel.sendBatch rt notifications connectedClients)).
Proof.
  revert connectedClients c.
  induction notifications as [|n ns IH]; intros clients c Hids Hin Hrel.
  - cbn. split; [reflexivity|]. rewrite app_nil_r. by destruct c.
  - cbn [InAppChannel.sendBatch]. unfold InAppChannel.broadcast.
    destruct (emit_reliable rt n clients c Hids Hin Hrel) as [Hdone H1].
    pose proof (emit_keeps_ids rt n clients Hids) as Hids1.
    rewrite Hdone. cbv zeta.
    destruct (IH _ _ Hids1 H1 Hrel) as [Hdone2 H2].
    cbn in *. split; [exact Hdone2|]. by rewrite <- app_assoc in H2.
Qed.

Lemma in_app_reliable_client_gets_batch_witness :
  In {| InAppChannel.clientId := JStr "tab-2";
        InAppChannel.ws := fun _ _ => Normal tt;
        InAppChannel.delivered := [low_example; urgent_example] |}
     (InAppChannel.connections
        (InAppChannel.sendBatch exampleRuntime [low_example; urgent_example]
           [{| InAppChannel.clientId := JStr "tab-1";
               InAppChannel.ws := fun _ _ => Throw (Error "closed");
               InAppChannel.delivered := [] |};
            {| InAppChannel.clientId := JStr "tab-2";
               InAppChannel.ws := fun _ _ => Normal tt;
               InAppChannel.delivered := [] |}])).
Proof.
  apply (in_app_reliable_client_gets_batch exampleRuntime [low_example; urgent_example] _
           {| InAppChannel.clientId := JStr "tab-2";
              InAppChannel.ws := fun _ _ => Normal tt;
              InAppChannel.delivered := [] |}).
  - repeat constructor; eexists; reflexivity.
  - right. left. reflexivity.
  - intros ? ?. reflexivity.
Defined.

(** A failing connection whose identifier does not convert to a string
    makes the [catch] of [emit] raise: the connection stays, and the
    reliable connection behind it gets nothing. *)
Example unconvertible_clientId_ends_the_batch :
  let failing := {| InAppChannel.clientId := obj [("toString", JNull)];
                    InAppChannel.ws := fun _ _ => Throw (Error "closed");
                    InAppChannel.delivered := [] |} in
  let steady := {| InAppChannel.clientId := JStr "tab-2";
                   InAppChannel.ws := fun _ _ => Normal tt;
                   InAppChannel.delivered := [] |} in
  let o := InAppChannel.sendBatch exampleRuntime [low_example; urgent_example]
             [failing; steady] in
  InAppChannel.completion o = Throw (TypeError "Cannot convert object to primitive value") /\
  map InAppChannel.delivered (InAppChannel.connections o) = [[]; []] /\
  InAppChannel.log_lines o = [].
Proof. vm_compute. repeat split. Qed.

Lemma emit_removes rt n clients :
  sublist (map InAppChannel.clientId
             (InAppChannel.connections (InAppChannel.emit rt n clients)))
          (map InAppChannel.clientId clients) /\
  (length (InAppChannel.connections (InAppChannel.emit rt n clients))
   + length (InAppChannel.log_lines (InAppChannel.emit rt n clients))
   = length clients)%nat /\
  Forall (fun l => fst l = error) (InAppChannel.log_lines (InAppChannel.emit rt n clients)).
Proof.
  induction clients as [|c clients (IH1 & IH2 & IH3)]; cbn [InAppChannel.emit].
  - cbn. repeat split; constructor.
  - destruct (InAppChannel.ws c (InAppChannel.delivered c) n).
    + cbn. split; [by apply sublist_skip|]. split; [lia|exact IH3].
    + destruct (template rt (InAppChannel.clientId c)); cbn.
      * split; [by apply sublist_cons|]. split; [lia|]. by constructor.
      * split; [reflexivity|]. split; [lia|constructor].
Qed.

(** X21. Sending a batch in-app only ever removes connections: the clients
    connected afterwards are, in the same order, some of those connected
    before; every client that is gone has one error line in the log, and
    nothing else is logged. *)
Theorem in_app_only_removes_clients rt (notifications : list Notification)
    (connectedClients : list InAppChannel.Client) :
  let after :=
    InAppChannel.connections (InAppChannel.sendBatch rt notifications connectedClients) in
  let logged :=
    InAppChannel.log_lines (InAppChannel.sendBatch rt notifications connectedClients) in
  sublist (map InAppChannel.clientId after) (map InAppChannel.clientId connectedClients) /\
  (length after + length logged = length connectedClients)%nat /\
  Forall (fun l => fst l = error) logged /\
  (connectedClients = [] -> after = [] /\ logged = []).
Proof.
  cbv zeta. revert connectedClients.
  induction notifications as [|n ns IH]; intros clients.
  - cbn. repeat split; try done; lia.
  - cbn [InAppChannel.sendBatch]. unfold InAppChannel.broadcast. cbv zeta.
    destruct (emit_removes rt n clients) as (H1 & H2 & H3).
    destruct (InAppChannel.completion (InAppChannel.emit rt n clients)).
    + destruct (IH (InAppChannel.connections (InAppChannel.emit rt n clients)))
        as (H4 & H5 & H6 & H7).
      cbn [InAppChannel.connections InAppChannel.log_lines].
      split; [by etrans|]. split; [rewrite length_app; lia|].
      split; [by apply Forall_app|].
      intros ->. cbn in *. destruct (H7 eq_refl) as [-> ->]. done.
    + split; [exact H1|]. split; [exact H2|]. split; [exact H3|].
      intros ->. cbn. done.
Qed.

(** ** Slack and Teams *)

Lemma sort_by_priority_head sub :
  sub <> [] ->
  exists top rest,
    sort_by_priority sub = top :: rest /\
    In top sub /\
    Forall (fun n => priority n <= priority top) sub /\
    length (top :: rest) = length sub.
Proof.
  intros Hne. pose proof (sort_by_priority_perm sub) as Hperm.
  pose proof (sort_by_priority_sorted sub) as Hsorted.
  destruct (sort_by_priority sub) as [|top rest].
  { apply Permutation_nil in Hperm. done. }
  exists top, rest. split; [reflexivity|].
  split; [apply (Permutation_in _ Hperm); by left|].
  split; [|by apply Permutation_length].
  rewrite <- Hperm. apply StronglySorted_inv in Hsorted as [_ Hle].
  constructor; [lia|exact Hle].
Qed.

(** X22. The Slack message of a flush leads with the most urgent
    notification: for the sorted sub-batch the router hands over, the
    payload exists, its text is the title of a notification of highest
    priority in the sub-batch, its first attachment has the colour of that
    priority, and it has one attachment for each notification. *)
Theorem slack_headline_is_top_priority (sub : list Notification) :
  sub <> [] ->
  exists payload top,
    SlackChannel.generateSlackPayload (sort_by_priority sub) = Normal payload /\
    In top sub /\
    Forall (fun n => priority n <= priority top) sub /\
    SlackChannel.text payload = title top /\
    option_map SlackChannel.color (head (SlackChannel.attachments payload))
    = Some (SlackChannel.getSlackColor (priority top)) /\
    length (SlackChannel.attachments payload) = length sub.
Proof.
  intros Hne. destruct (sort_by_priority_head sub Hne) as (top & rest & Hs & Hin & Hmax & Hlen).
  rewrite Hs. eexists _, top. split; [reflexivity|]. split; [exact Hin|].
  split; [exact Hmax|]. split; [reflexivity|]. split; [reflexivity|].
  cbn [SlackChannel.attachments length drop]. rewrite length_map. exact Hlen.
Qed.

Lemma slack_headline_is_top_priority_witness :
  exists payload,
    SlackChannel.generateSlackPayload (sort_by_priority [low_example; urgent_example])
      = Normal payload /\
    SlackChannel.text payload = title urgent_example.
Proof.
  destruct (slack_headline_is_top_priority [low_example; urgent_example]
              ltac:(discriminate)) as (payload & top & H & _).
  exists payload. split; [exact H|].
  vm_compute in H. injection H as <-. reflexivity.
Defined.

(** X23. The Slack sender posts at most one message per batch and reports
    every failure in its log only: without a webhook URL it posts nothing
    and logs a warning; on an empty batch it posts nothing and logs an
    error; otherwise it posts the payload of the batch exactly once,
    whatever [fetch] answers, and logs success only for an [ok] response. *)
Theorem slack_posts_once rt (webhookUrl : JsValue)
    (fetch : SlackChannel.Payload -> FetchResult) (notifications : list Notification) :
  let posted := fst (SlackChannel.sendBatch rt webhookUrl fetch notifications) in
  let logged := snd (SlackChannel.sendBatch rt webhookUrl fetch notifications) in
  length logged = 1%nat /\
  (ToBoolean webhookUrl = false ->
   posted = [] /\ map fst logged = [warn]) /\
  (ToBoolean webhookUrl = true -> notifications = [] ->
   posted = [] /\ map fst logged = [error]) /\
  (ToBoolean webhookUrl = true -> notifications <> [] ->
   exists payload,
     SlackChannel.generateSlackPayload notifications = Normal payload /\
     posted = [payload] /\
     map fst logged
     = [match fetch payload with Response true _ => info | _ => error end]).
Proof.
  cbv zeta. unfold SlackChannel.sendBatch.
  destruct (ToBoolean webhookUrl); cbn [negb].
  - destruct notifications as [|n ns].
    + cbn. repeat split; try done.
    + cbn [SlackChannel.generateSlackPayload].
      match goal with |- context [fetch ?p] => set (payload := p) end.
      split; [by destruct (fetch payload) as [[|] ?|?]|].
      split; [done|]. split; [done|]. intros _ _. exists payload.
      split; [reflexivity|]. by destruct (fetch payload) as [[|] ?|?].
  - cbn. repeat split; done.
Qed.

Lemma slack_posts_once_witness :
  fst (SlackChannel.sendBatch exampleRuntime JUndefined (fun _ => Response true 200)
         [low_example]) = [] /\
  exists payload,
    fst (SlackChannel.sendBatch exampleRuntime (JStr "https://hooks.example/T0")
           (fun _ => Rejected (Error "ECONNRESET")) [low_example]) = [payload].
Proof.
  split.
  - apply (proj1 (proj2 (slack_posts_once exampleRuntime JUndefined
                           (fun _ => Response true 200) [low_example]))).
    reflexivity.
  - destruct (proj2 (proj2 (proj2 (slack_posts_once exampleRuntime
                (JStr "https://hooks.example/T0")
                (fun _ => Rejected (Error "ECONNRESET")) [low_example])))
              eq_refl ltac:(discriminate)) as (payload & _ & H & _).
    exists payload. exact H.
Defined.

(** X24. The Teams card of a flush is about the most urgent notification:
    for the sorted sub-batch the router hands over, the card exists, its
    summary, theme colour and link are those of a notification of highest
    priority in the sub-batch, and its text counts the other notifications
    of the sub-batch. *)
Theorem teams_card_is_top_priority rt (frontendUrl : JsValue) (sub : list Notification) :
  sub <> [] ->
  exists payload top,
    TeamsChannel.generateTeamsPayload rt frontendUrl (sort_by_priority sub)
      = Normal payload /\
    In top sub /\
    Forall (fun n => priority n <= priority top) sub /\
    TeamsChannel.summary payload = title top /\
    TeamsChannel.themeColor payload = TeamsChannel.getTeamsColor (priority top) /\
    TeamsChannel.uri payload = ToString rt frontendUrl +:+ "/notifications/" +:+ id top /\
    TeamsChannel.text payload
    = "Additional notifications: "
        +:+ ToString rt (JNum (Z.of_nat (length sub) - 1)) +:+ " more".
Proof.
  intros Hne. destruct (sort_by_priority_head sub Hne) as (top & rest & Hs & Hin & Hmax & Hlen).
  rewrite Hs. eexists _, top. split; [reflexivity|]. split; [exact Hin|].
  split; [exact Hmax|]. cbn [TeamsChannel.summary TeamsChannel.themeColor
                             TeamsChannel.uri TeamsChannel.text].
  rewrite Hlen. repeat split.
Qed.

Lemma teams_card_is_top_priority_witness :
  exists payload,
    TeamsChannel.generateTeamsPayload exampleRuntime (JStr "https://app.example")
      (sort_by_priority [low_example; urgent_example]) = Normal payload /\
    TeamsChannel.summary payload = title urgent_example /\
    TeamsChannel.text payload = "Additional notifications: 1 more".
Proof.
  destruct (teams_card_is_top_priority exampleRuntime (JStr "https://app.example")
              [low_example; urgent_example] ltac:(discriminate))
    as (payload & top & H & _).
  exists payload. split; [exact H|].
  vm_compute in H. injection H as <-. split; reflexivity.
Defined.

(** X25. Slack and Teams colour a priority alike: for every priority, on
    the scale or not, the Slack colour is the Teams colour with a leading
    [#]; the five priorities of the scale get five different colours, and a
    priority off the scale gets the colour of LOW. *)
Theorem slack_and_teams_colours_agree (p : Z) :
  SlackChannel.getSlackColor p = "#" +:+ TeamsChannel.getTeamsColor p /\
  NoDup (map TeamsChannel.getTeamsColor [LOW; MEDIUM; HIGH; URGENT; CRITICAL]) /\
  (p < LOW \/ CRITICAL < p ->
   TeamsChannel.getTeamsColor p = TeamsChannel.getTeamsColor LOW).
Proof.
  unfold SlackChannel.getSlackColor, TeamsChannel.getTeamsColor. split; [|split].
  - repeat match goal with |- context [?a =? ?b] => destruct (a =? b) end; reflexivity.
  - apply (bool_decide_unpack _). vm_compute. exact I.
  - unfold LOW, MEDIUM, HIGH, URGENT, CRITICAL. intros H.
    repeat match goal with |- context [?a =? ?b] => destruct (Z.eqb_spec a b) end;
      try reflexivity; lia.
Qed.

Lemma slack_and_teams_colours_agree_witness :
  TeamsChannel.getTeamsColor 0 = TeamsChannel.getTeamsColor LOW.
Proof.
  apply (proj2 (proj2 (slack_and_teams_colours_agree 0))). left. reflexivity.
Defined.

(** ** Draining the queue *)

Lemma in_app_only_removes_clients_witness :
  InAppChannel.connections (InAppChannel.sendBatch exampleRuntime [low_example] []) = [] /\
  InAppChannel.log_lines (InAppChannel.sendBatch exampleRuntime [low_example] []) = [].
Proof.
  apply (proj2 (proj2 (proj2 (in_app_only_removes_clients exampleRuntime [low_example] [])))).
  reflexivity.
Defined.

Lemma sweeps_drop rt (ticks : list Z) s :
  notificationQueue (run rt (map Sweep ticks) s)
  = drop (length ticks * batchSize) (notificationQueue s) /\
  emitted (run rt (map Sweep ticks) s) = emitted s /\
  rateLimiters (run rt (map Sweep ticks) s) = rateLimiters s.
Proof.
  revert s. induction ticks as [|now ticks IH]; intros s; [by cbn|].
  cbn [map run fold_left step length].
  destruct (sweepCallback_effect now s) as (s' & Hrun & Hq & He & Hr & _).
  rewrite Hrun. cbn [snd]. destruct (IH s') as (IH1 & IH2 & IH3).
  unfold run in IH1, IH2, IH3. rewrite IH1, IH2, IH3, Hq, He, Hr, drop_drop.
  repeat split; f_equal; lia.
Qed.

(** X26. The periodic sweep alone drains the queue, [batchSize] at a time
    and oldest first: after [k] ticks without publishing in between, the
    first [k * batchSize] notifications have left the queue and the rest is
    unchanged, so a queue of [n] notifications is empty after
    [ceil(n / batchSize)] ticks; the sweep admits nothing and leaves the
    rate-limit table alone. *)
Theorem sweep_drains_queue rt (ticks : list Z) (s : ServiceState) :
  notificationQueue (run rt (map Sweep ticks) s)
  = drop (length ticks * batchSize) (notificationQueue s) /\
  emitted (run rt (map Sweep ticks) s) = emitted s /\
  rateLimiters (run rt (map Sweep ticks) s) = rateLimiters s /\
  ((length (notificationQueue s) <= length ticks * batchSize)%nat ->
   notificationQueue (run rt (map Sweep ticks) s) = []).
Proof.
  destruct (sweeps_drop rt ticks s) as (Hq & He & Hr).
  repeat (split; [assumption|]). intros Hlen. rewrite Hq. by apply drop_ge.
Qed.

Lemma sweep_drains_queue_witness :
  notificationQueue
    (run exampleRuntime (map Sweep [5000; 10000])
       (snd (publish_all exampleRuntime ten_calls initial))) = [].
Proof.
  apply (proj2 (proj2 (proj2 (sweep_drains_queue exampleRuntime [5000; 10000]
                                (snd (publish_all exampleRuntime ten_calls initial)))))).
  vm_compute. lia.
Defined.
